(** * MIRTK Common: energy measure naming and the parameter list of [Object]

    A shallow embedding of
    - [Modules/Common/include/mirtk/EnergyMeasure.h]: the enumeration
      [EnergyMeasure] with its [ToString] and [FromString] specialisations;
    - [Modules/Common/include/mirtk/Object.h]: the [ParameterList] helpers
      [Find], [Contains], [Get], [Insert], [Remove] and the member
      [Object::Parameter].

    Conventions.  A [std::string] and a C string are both modelled by
    [string], the text up to the terminator, so that [c_str] and the
    conversion of a C string to a [std::string] are the identity.
    [strcmp (a, b) == 0] and [operator==] on strings are [String.eqb].  A
    function returning through a reference parameter returns a pair; a
    function mutating its first argument returns the new value of it. *)

From Stdlib Require Import ZArith Strings.String Strings.Ascii.
From stdpp Require Import base list strings gmap.

(* ===================================================================== *)
(** * String.h (the part the two headers use)                              *)
(* ===================================================================== *)

Module MirtkString.

(** [n] copies of the fill character. *)
Fixpoint fill (n : nat) (c : ascii) : string :=
  match n with
  | 0 => EmptyString
  | S m => String c (fill m c)
  end.

(** Modelled from the spec: the string overload of [ToString], declared in
    [mirtk/String.h], is not among the sources at hand.  The spec has
    [ToString (value)] return the canonical code itself, which is what
    streaming a string with the default field width [w = 0] gives; a larger
    width pads with the fill character [c], on the right when [left] is set
    and on the left otherwise. *)
Definition ToString_str (str : string) (w : Z) (c : ascii) (left : bool)
  : string :=
  let pad := fill (Z.to_nat (w - Z.of_nat (String.length str))) c in
  if left then str +:+ pad else pad +:+ str.

(** The default formatting arguments of [ToString]. *)
Definition ToString_default (str : string) : string :=
  ToString_str str 0%Z " "%char false.

End MirtkString.

(* ===================================================================== *)
(** * EnergyMeasure.h                                                      *)
(* ===================================================================== *)

Module EnergyMeasure.
Import MirtkString.

(** [enum EnergyMeasure], enumerators in declaration order. *)
Inductive EnergyMeasure : Type :=
  | EM_Unknown
  | SIM_Begin
  | EM_JE | EM_CC | EM_MI | EM_NMI | EM_SSD | EM_CR_XY | EM_CR_YX
  | EM_LC | EM_K | EM_ML | EM_NGF_COS | EM_LNCC
  | SIM_End
  | PDM_Begin
  | EM_FRE | EM_CorrespondenceDistance | EM_CurrentsDistance
  | EM_VarifoldDistance
  | PDM_End
  | EFT_Begin
  | EM_BalloonForce | EM_ImageEdgeForce | EM_ImplicitSurfaceDistance
  | EM_ImplicitSurfaceSpringForce
  | EFT_End
  | IFT_Begin
  | EM_MetricDistortion | EM_Stretching | EM_Curvature
  | EM_QuadraticCurvature | EM_NonSelfIntersection | EM_RepulsiveForce
  | EM_InflationForce | EM_SpringForce
  | IFT_End
  | CM_Begin
  | EM_VolumePreservation | EM_TopologyPreservation | EM_Sparsity
  | EM_BendingEnergy | EM_L0Norm | EM_L1Norm | EM_L2Norm
  | EM_SqLogDetJac | EM_MinDetJac
  | CM_End
  | EM_Last.

(** The enumerators in the order the enumeration declares them; the
    position of an enumerator in this list is its integer value. *)
Definition enumerators : list EnergyMeasure :=
  [ EM_Unknown;
    SIM_Begin;
    EM_JE; EM_CC; EM_MI; EM_NMI; EM_SSD; EM_CR_XY; EM_CR_YX;
    EM_LC; EM_K; EM_ML; EM_NGF_COS; EM_LNCC;
    SIM_End;
    PDM_Begin;
    EM_FRE; EM_CorrespondenceDistance; EM_CurrentsDistance;
    EM_VarifoldDistance;
    PDM_End;
    EFT_Begin;
    EM_BalloonForce; EM_ImageEdgeForce; EM_ImplicitSurfaceDistance;
    EM_ImplicitSurfaceSpringForce;
    EFT_End;
    IFT_Begin;
    EM_MetricDistortion; EM_Stretching; EM_Curvature;
    EM_QuadraticCurvature; EM_NonSelfIntersection; EM_RepulsiveForce;
    EM_InflationForce; EM_SpringForce;
    IFT_End;
    CM_Begin;
    EM_VolumePreservation; EM_TopologyPreservation; EM_Sparsity;
    EM_BendingEnergy; EM_L0Norm; EM_L1Norm; EM_L2Norm;
    EM_SqLogDetJac; EM_MinDetJac;
    CM_End;
    EM_Last ].

(** Integer value of an enumerator (no enumerator has an initialiser, so
    the values are 0, 1, 2, ... in declaration order). *)
Definition to_int (e : EnergyMeasure) : nat :=
  match e with
  | EM_Unknown => 0
  | SIM_Begin => 1
  | EM_JE => 2 | EM_CC => 3 | EM_MI => 4 | EM_NMI => 5 | EM_SSD => 6
  | EM_CR_XY => 7 | EM_CR_YX => 8 | EM_LC => 9 | EM_K => 10 | EM_ML => 11
  | EM_NGF_COS => 12 | EM_LNCC => 13
  | SIM_End => 14
  | PDM_Begin => 15
  | EM_FRE => 16 | EM_CorrespondenceDistance => 17
  | EM_CurrentsDistance => 18 | EM_VarifoldDistance => 19
  | PDM_End => 20
  | EFT_Begin => 21
  | EM_BalloonForce => 22 | EM_ImageEdgeForce => 23
  | EM_ImplicitSurfaceDistance => 24 | EM_ImplicitSurfaceSpringForce => 25
  | EFT_End => 26
  | IFT_Begin => 27
  | EM_MetricDistortion => 28 | EM_Stretching => 29 | EM_Curvature => 30
  | EM_QuadraticCurvature => 31 | EM_NonSelfIntersection => 32
  | EM_RepulsiveForce => 33 | EM_InflationForce => 34 | EM_SpringForce => 35
  | IFT_End => 36
  | CM_Begin => 37
  | EM_VolumePreservation => 38 | EM_TopologyPreservation => 39
  | EM_Sparsity => 40 | EM_BendingEnergy => 41 | EM_L0Norm => 42
  | EM_L1Norm => 43 | EM_L2Norm => 44 | EM_SqLogDetJac => 45
  | EM_MinDetJac => 46
  | CM_End => 47
  | EM_Last => 48
  end.

(** [static_cast<EnergyMeasure>(n)].  The source only casts integers between
    [EM_Unknown] and [EM_Last - 1]; an integer above [EM_Last] names no
    enumerator and is sent to [EM_Unknown] here. *)
Definition static_cast (n : nat) : EnergyMeasure :=
  nth n enumerators EM_Unknown.

(** [a == b] on enumeration values compares the integer values. *)
Definition EM_eqb (a b : EnergyMeasure) : bool :=
  Nat.eqb (to_int a) (to_int b).

(** Strictly between the begin and end sentinel of one category. *)
Definition between (lo hi e : EnergyMeasure) : bool :=
  Nat.ltb (to_int lo) (to_int e) && Nat.ltb (to_int e) (to_int hi).

Definition selectable (e : EnergyMeasure) : bool :=
  between SIM_Begin SIM_End e
  || between PDM_Begin PDM_End e
  || between EFT_Begin EFT_End e
  || between IFT_Begin IFT_End e
  || between CM_Begin CM_End e.

(** A category sentinel. *)
Definition sentinel (e : EnergyMeasure) : bool :=
  match e with
  | SIM_Begin | SIM_End | PDM_Begin | PDM_End | EFT_Begin | EFT_End
  | IFT_Begin | IFT_End | CM_Begin | CM_End => true
  | _ => false
  end.

(** The specialisation of [ToString] for [EnergyMeasure]. *)
Definition ToString_fmt (value : EnergyMeasure) (w : Z) (c : ascii)
  (left : bool) : string :=
  let str :=
    match value with
    (* Image (dis-)similarity measures *)
    | EM_JE => "JE"
    | EM_CC => "CC"
    | EM_MI => "MI"
    | EM_NMI => "NMI"
    | EM_SSD => "SSD"
    | EM_CR_XY => "CR_XY"
    | EM_CR_YX => "CR_YX"
    | EM_LC => "LC"
    | EM_K => "K"
    | EM_ML => "ML"
    | EM_NGF_COS => "NGF_COS"
    | EM_LNCC => "LNCC"
    (* Point set distance measures *)
    | EM_FRE => "FRE"
    | EM_CorrespondenceDistance => "PCD"
    | EM_CurrentsDistance => "CurrentsDistance"
    | EM_VarifoldDistance => "VarifoldDistance"
    (* External point set forces *)
    | EM_BalloonForce => "BalloonForce"
    | EM_ImageEdgeForce => "ImageEdgeForce"
    | EM_ImplicitSurfaceDistance => "ImplicitSurfaceDistance"
    | EM_ImplicitSurfaceSpringForce => "ImplicitSurfaceSpringForce"
    (* Internal point set forces *)
    | EM_MetricDistortion => "MetricDistortion"
    | EM_Stretching => "Stretching"
    | EM_Curvature => "Curvature"
    | EM_QuadraticCurvature => "QuadraticCurvature"
    | EM_NonSelfIntersection => "NSI"
    | EM_RepulsiveForce => "Repulsion"
    | EM_InflationForce => "Inflation"
    | EM_SpringForce => "Spring"
    (* Transformation constraints *)
    | EM_BendingEnergy => "BE"
    | EM_VolumePreservation => "VP"
    | EM_TopologyPreservation => "TP"
    | EM_Sparsity => "Sparsity"
    | EM_L0Norm => "L0"
    | EM_L1Norm => "L1"
    | EM_L2Norm => "L2"
    | EM_SqLogDetJac => "SqLogDetJac"
    | EM_MinDetJac => "MinDetJac"
    (* Unknown/invalid enumeration value *)
    | _ => "Unknown"
    end in
  ToString_str str w c left.

(** [ToString (value)]: the call with the default formatting arguments of
    the primary template ([w = 0], [c = ' '], [left = false]). *)
Definition ToString (value : EnergyMeasure) : string :=
  ToString_fmt value 0%Z " "%char false.

(** ** FromString

    Each block of the source is guarded by [if (value == EM_Unknown)] and
    may assign [value]; a block is a function from the current [value] to
    the next one. *)

(** Alternative names for image (dis-)similarity measures. *)
Definition sim_names (str : string) (value : EnergyMeasure) : EnergyMeasure :=
  if EM_eqb value EM_Unknown then
    if String.eqb str "NCC" then EM_LNCC
    else if String.eqb str "LCC" then EM_LNCC
    else value
  else value.

(** Alternative names for point set distance measures. *)
Definition pdm_names (str : string) (value : EnergyMeasure) : EnergyMeasure :=
  if EM_eqb value EM_Unknown then
    if String.eqb str "Fiducial Registration Error"
       || String.eqb str "Fiducial registration error"
       || String.eqb str "Fiducial Error"
       || String.eqb str "Fiducial error"
       || String.eqb str "Landmark Registration Error"
       || String.eqb str "Landmark registration error"
       || String.eqb str "Landmark Error"
       || String.eqb str "Landmark error"
    then EM_FRE
    else if String.eqb str "Point Correspondence Distance"
            || String.eqb str "Point correspondence distance"
            || String.eqb str "Correspondence Distance"
            || String.eqb str "Correspondence distance"
    then EM_CorrespondenceDistance
    else if String.eqb str "Currents distance"
            || String.eqb str "Currents Distance"
    then EM_CurrentsDistance
    else if String.eqb str "Varifold distance"
            || String.eqb str "Varifold Distance"
    then EM_VarifoldDistance
    else value
  else value.

(** Alternative names for external point set forces. *)
Definition eft_names (str : string) (value : EnergyMeasure) : EnergyMeasure :=
  if EM_eqb value EM_Unknown then
    if String.eqb str "EdgeForce" then EM_ImageEdgeForce else value
  else value.

(** Alternative names for internal point set forces. *)
Definition ift_names (str : string) (value : EnergyMeasure) : EnergyMeasure :=
  if EM_eqb value EM_Unknown then
    if String.eqb str "EdgeLength" then EM_Stretching
    else if String.eqb str "MetricDistortion" then EM_MetricDistortion
    else if String.eqb str "Bending" then EM_Curvature
    else if String.eqb str "SurfaceBending" then EM_Curvature
    else if String.eqb str "SurfaceCurvature" then EM_Curvature
    else if String.eqb str "RepulsiveForce" then EM_RepulsiveForce
    else if String.eqb str "NonSelfIntersection" then EM_NonSelfIntersection
    else if String.eqb str "InflationForce" then EM_InflationForce
    else if String.eqb str "SurfaceInflation" then EM_InflationForce
    else value
  else value.

(** Alternative names for transformation regularization terms. *)
Definition cm_names (str : string) (value : EnergyMeasure) : EnergyMeasure :=
  if EM_eqb value EM_Unknown then
    if String.eqb str "JAC" then EM_SqLogDetJac
    else if String.eqb str "MinJac" then EM_MinDetJac
    else value
  else value.

(** The loop
    [while (value != EM_Unknown) { if (ToString(value) == str) break;
                                   value = static_cast<EnergyMeasure>(value - 1); }]
    on the integer value [n] of [value]: it stops at [0 = EM_Unknown], and
    otherwise compares and decrements. *)
Fixpoint scan (n : nat) (str : string) : EnergyMeasure :=
  match n with
  | 0 => EM_Unknown
  | S m =>
      if String.eqb (ToString (static_cast n)) str then static_cast n
      else scan m str
  end.

(** Default names of energy measures (cf. [ToString]). *)
Definition default_names (str : string) (value : EnergyMeasure)
  : EnergyMeasure :=
  if EM_eqb value EM_Unknown then scan (to_int EM_Last - 1) str
  else value.

(** The five alias blocks, in source order. *)
Definition alias_names (str : string) : EnergyMeasure :=
  cm_names str (ift_names str (eft_names str (pdm_names str
    (sim_names str EM_Unknown)))).

(** The specialisation of [FromString] for [EnergyMeasure]: the value left
    in [value] and the returned flag. *)
Definition FromString (str : string) : EnergyMeasure * bool :=
  let value := EM_Unknown in
  let value := sim_names str value in
  let value := pdm_names str value in
  let value := eft_names str value in
  let value := ift_names str value in
  let value := cm_names str value in
  let value := default_names str value in
  (value, negb (EM_eqb value EM_Unknown)).

End EnergyMeasure.

(* ===================================================================== *)
(** * Object.h                                                             *)
(* ===================================================================== *)

Module Object.

(** [typedef Array<Pair<string, string> > ParameterList]: an array of
    name/value pairs.  An iterator is the index of the entry it points to,
    and [params.end()] is [length params]. *)
Abbreviation ParameterList := (list (string * string)).

(** ** The class [Object]

    The virtual member functions, as a table of functions over the state
    [Self] of the concrete class.  [Set] may change the object and returns
    whether it accepted the parameter. *)
Record Class (Self : Type) : Type := {
  NameOfClass : Self -> string;
  Set_ : Self -> string -> string -> Self * bool;
  Parameter_get : Self -> ParameterList
}.
Arguments NameOfClass {Self} _ _.
Arguments Set_ {Self} _ _ _ _.
Arguments Parameter_get {Self} _ _.

(** The default body of the virtual [Set]: [{ return false; }]. *)
Definition Object_Set {Self : Type} (this : Self) (name value : string)
  : Self * bool :=
  (this, false).

(** The default body of the virtual [Parameter ()]: an empty list. *)
Definition Object_Parameter {Self : Type} (this : Self) : ParameterList := [].

(** [inline void Parameter (const ParameterList &param)]: the loop over
    [param], calling the virtual [Set] and dropping what it returns. *)
Fixpoint Parameter_set {Self : Type} (cls : Class Self) (this : Self)
  (param : ParameterList) : Self :=
  match param with
  | [] => this
  | it :: rest => Parameter_set cls (Set_ cls this it.1 it.2).1 rest
  end.

(** A class that overrides nothing but [NameOfClass]. *)
Definition plain (Self : Type) (name : string) : Class Self :=
  {| NameOfClass := fun _ => name;
     Set_ := Object_Set;
     Parameter_get := Object_Parameter |}.

(** The class [cls] with [Set] instrumented: every call is appended, with
    its two arguments, to a log kept next to the object. *)
Definition logged {Self : Type} (cls : Class Self)
  : Class (Self * list (string * string)) :=
  {| NameOfClass := fun this => NameOfClass cls this.1;
     Set_ := fun this name value =>
       let r := Set_ cls this.1 name value in
       ((r.1, this.2 ++ [(name, value)]), r.2);
     Parameter_get := fun this => Parameter_get cls this.1 |}.

(** ** Auxiliary functions *)

(** [Find]: [while (it != params.end () && it->first != name) ++it;].  The
    const and the non-const overload have the same body. *)
Fixpoint Find (params : ParameterList) (name : string) : nat :=
  match params with
  | [] => 0
  | it :: rest => if String.eqb it.1 name then 0 else S (Find rest name)
  end.

Definition Contains (params : ParameterList) (name : string) : bool :=
  negb (Nat.eqb (Find params name) (length params)).

Definition Get (params : ParameterList) (name : string) : string :=
  let pos := Find params name in
  if Nat.eqb pos (length params) then ""
  else match params !! pos with
       | Some it => it.2
       | None => ""
       end.

(** [pos->second = value] *)
Definition set_second (value : string) (it : string * string)
  : string * string :=
  (it.1, value).

Section GenericInsert.
Context {T : Type}.
(** The [ToString] overload for [T], with its default arguments. *)
Variable ToString : T -> string.

(** The primary template [Insert (params, name, T value)]. *)
Definition Insert (params : ParameterList) (name : string) (value : T)
  : ParameterList :=
  let pos := Find params name in
  if Nat.eqb pos (length params) then params ++ [(name, ToString value)]
  else alter (set_second (ToString value)) pos params.
End GenericInsert.

(** The specialisation of [Insert] for a C string value. *)
Definition Insert_cstr (params : ParameterList) (name : string)
  (value : string) : ParameterList :=
  let pos := Find params name in
  if Nat.eqb pos (length params) then params ++ [(name, value)]
  else alter (set_second value) pos params.

(** The specialisation of [Insert] for a [string] value. *)
Definition Insert_string (params : ParameterList) (name : string)
  (value : string) : ParameterList :=
  let pos := Find params name in
  if Nat.eqb pos (length params) then params ++ [(name, value)]
  else alter (set_second value) pos params.

(** [::tolower] in the C locale: the upper case letters [A]..[Z] go to
    [a]..[z], every other character is returned as it is. *)
Definition tolower (c : ascii) : ascii :=
  let n := nat_of_ascii c in
  if Nat.leb 65 n && Nat.leb n 90 then ascii_of_nat (n + 32) else c.

(** Element access [s[pos]] of a [std::string], read.  The characters of
    [s] are at the positions below [s.size ()]; at [s.size ()] itself the
    access is defined and refers to the terminator, the null character;
    beyond that it is undefined, which is the error [None]. *)
Definition char_at (s : string) (pos : nat) : option ascii :=
  match String.get pos s with
  | Some c => Some c
  | None => if Nat.eqb pos (String.length s) then Some Ascii.zero else None
  end.

(** [s[pos] = c].  Below [s.size ()] the character is replaced.  At
    [s.size ()] the terminator may only be given the null character again,
    which leaves the string as it is; storing another character there, and
    any store beyond, is undefined, which is the error [None]. *)
Fixpoint assign_at (s : string) (pos : nat) (c : ascii) : option string :=
  match s, pos with
  | EmptyString, 0 => if Ascii.eqb c Ascii.zero then Some EmptyString else None
  | EmptyString, S _ => None
  | String _ rest, 0 => Some (String c rest)
  | String a rest, S p => String a <$> assign_at rest p c
  end.

(** [name[0] = ::tolower (name[0]);].  On the empty name this reads the
    terminator and stores [tolower] of it, the null character, back. *)
Definition lower_first (name : string) : option string :=
  c ← char_at name 0; assign_at name 0 (tolower c).

(** The loop of [Insert (params, other, prefix)] for a non-null [prefix]. *)
Fixpoint Insert_prefixed (params other : ParameterList) (prefix : string)
  : option ParameterList :=
  match other with
  | [] => Some params
  | it :: rest =>
      name ← lower_first it.1;
      Insert_prefixed
        (Insert_string params ((prefix +:+ " ") +:+ name) it.2) rest prefix
  end.

(** The loop of [Insert (params, other, prefix)] for a null [prefix]. *)
Fixpoint Insert_verbatim (params other : ParameterList) : ParameterList :=
  match other with
  | [] => params
  | it :: rest => Insert_verbatim (Insert_string params it.1 it.2) rest
  end.

(** [Insert (ParameterList &params, const ParameterList &other,
             const char *prefix = NULL)]; a null pointer is [None].  The
    source list is read while the target is written: they are two lists. *)
Definition Insert_list (params other : ParameterList)
  (prefix : option string) : option ParameterList :=
  match prefix with
  | Some prefix => Insert_prefixed params other prefix
  | None => Some (Insert_verbatim params other)
  end.

(** [Remove]: [if (pos != params.end ()) params.erase (pos);] *)
Definition Remove (params : ParameterList) (name : string) : ParameterList :=
  let pos := Find params name in
  if negb (Nat.eqb pos (length params)) then delete pos params else params.

End Object.

(* ===================================================================== *)
(** * Reference definitions: name tables, merged names, a sample subclass  *)
(* ===================================================================== *)

Module Reference.
Import EnergyMeasure Object.

(** What the alias blocks of [FromString] hand on: no value yet, or a
    selectable one. *)
Definition unknown_or_selectable (value : EnergyMeasure) : Prop :=
  value = EM_Unknown \/ selectable value = true.

(** The alternative names of the fiducial registration error. *)
Definition FRE_names : list string :=
  [ "Fiducial Registration Error"; "Fiducial registration error";
    "Fiducial Error"; "Fiducial error";
    "Landmark Registration Error"; "Landmark registration error";
    "Landmark Error"; "Landmark error" ].

(** The specification's merged name,
    ["{prefix} {lowercased-first-letter of original name}"]: the name with
    its first character in lower case and the rest as it is, after the
    prefix and one space. *)
Definition lowercased_first_letter (name : string) : string :=
  match name with
  | EmptyString => EmptyString
  | String c rest => String (tolower c) rest
  end.

Definition merged_name (prefix name : string) : string :=
  prefix +:+ " " +:+ lowercased_first_letter name.

Definition merged_entry (prefix : string) (it : string * string)
  : string * string :=
  (merged_name prefix it.1, it.2).

(** A subclass of [Object] with the single parameter [Radius], kept as
    text: [Set] accepts that name and refuses every other one. *)
Definition Sphere : Class string :=
  {| NameOfClass := fun _ => "Sphere";
     Set_ := fun this name value =>
       if String.eqb name "Radius" then (value, true) else (this, false);
     Parameter_get := fun this => [("Radius", this)] |}.

End Reference.

(* ===================================================================== *)
(** * The alias tables of [FromString], block by block                     *)
(* ===================================================================== *)

Module AliasTables.
Import EnergyMeasure.

(** The string literals each block of [FromString] compares its argument
    with, in source order. *)
Definition sim_strings : list string := [ "NCC"; "LCC" ].

Definition pdm_strings : list string :=
  [ "Fiducial Registration Error"; "Fiducial registration error";
    "Fiducial Error"; "Fiducial error";
    "Landmark Registration Error"; "Landmark registration error";
    "Landmark Error"; "Landmark error";
    "Point Correspondence Distance"; "Point correspondence distance";
    "Correspondence Distance"; "Correspondence distance";
    "Currents distance"; "Currents Distance";
    "Varifold distance"; "Varifold Distance" ].

Definition eft_strings : list string := [ "EdgeForce" ].

Definition ift_strings : list string :=
  [ "EdgeLength"; "MetricDistortion"; "Bending"; "SurfaceBending";
    "SurfaceCurvature"; "RepulsiveForce"; "NonSelfIntersection";
    "InflationForce"; "SurfaceInflation" ].

Definition cm_strings : list string := [ "JAC"; "MinJac" ].

(** The five blocks, listed from the one [FromString] runs last to the one
    it runs first: [foldr] applies the last element of a list first, so
    folding this list runs [sim_names] first and [cm_names] last, as the
    source does. *)
Definition blocks : list (string -> EnergyMeasure -> EnergyMeasure) :=
  [ cm_names; ift_names; eft_names; pdm_names; sim_names ].

(** Running a list of blocks on [str], starting from [EM_Unknown]. *)
Definition run_blocks (bs : list (string -> EnergyMeasure -> EnergyMeasure))
  (str : string) : EnergyMeasure :=
  foldr (fun block value => block str value) EM_Unknown bs.

(** The guard [if (value == EM_Unknown)] around a block: the block keeps a
    value that is set, and otherwise does what it does to [EM_Unknown]. *)
Definition guarded (block : string -> EnergyMeasure -> EnergyMeasure) : Prop :=
  forall str value,
    block str value =
      if EM_eqb value EM_Unknown then block str EM_Unknown else value.

End AliasTables.

(* ===================================================================== *)
(** * Object.h: the setter [mirtkComponentMacro] generates                 *)
(* ===================================================================== *)

Module Attributes.

(** An object allocated with [new] is known by its address, the null
    pointer is [None], and the heap is the set of the addresses of the
    objects that are alive. *)
Abbreviation address := positive.
Abbreviation pointer := (option positive).
Abbreviation heap := (gset positive).

(** A pointer that may be used: null, or to an object that is alive. *)
Definition valid (h : heap) (p : pointer) : Prop :=
  match p with
  | None => True
  | Some a => a ∈ h
  end.

(** [delete p]: nothing for a null pointer, the end of the object for a
    pointer to one that is alive, and undefined otherwise, which is the
    error [None].  Only the end of the object [p] points to is recorded:
    what its destructor releases besides is not, so nothing is said here
    about the other objects that are alive afterwards. *)
Definition delete_object (h : heap) (p : pointer) : option heap :=
  match p with
  | None => Some h
  | Some a => if decide (a ∈ h) then Some (h ∖ {[a]}) else None
  end.

(** The setter of [mirtkDefineComponentMacro],
    [{ delete _name; _name = arg; }], on the heap and the member. *)
Definition set_component (h : heap) (member arg : pointer)
  : option (heap * pointer) :=
  h' ← delete_object h member; Some (h', arg).

End Attributes.

(* ===================================================================== *)
(** * Properties of the energy measure names                               *)
(* ===================================================================== *)

Section EnergyMeasureNames.
Import MirtkString EnergyMeasure Reference.

(** With no field width the string overload returns its argument. *)
Lemma ToString_default_id (str : string) : ToString_default str = str.
Proof.
  unfold ToString_default, ToString_str.
  by replace (Z.to_nat (0 - Z.of_nat (String.length str))) with 0 by lia.
Qed.

Lemma static_cast_to_int (e : EnergyMeasure) : static_cast (to_int e) = e.
Proof. by destruct e. Qed.

Lemma EM_eqb_eq (a b : EnergyMeasure) : EM_eqb a b = true <-> a = b.
Proof.
  unfold EM_eqb. rewrite Nat.eqb_eq. split; [|by intros ->].
  intros H. rewrite <- (static_cast_to_int a), <- (static_cast_to_int b).
  by rewrite H.
Qed.

(** Only the selectable enumerators have a name of their own. *)
Lemma not_selectable_Unknown (e : EnergyMeasure) :
  selectable e = false -> ToString e = "Unknown".
Proof. by destruct e. Qed.

Lemma selectable_not_sentinel (e : EnergyMeasure) :
  selectable e = true -> sentinel e = false /\ e <> EM_Unknown /\ e <> EM_Last.
Proof. by destruct e. Qed.

(** The scan either falls through to [EM_Unknown] or stops at a value whose
    canonical name is the input. *)
Lemma scan_found (n : nat) (str : string) :
  scan n str = EM_Unknown \/ ToString (scan n str) = str.
Proof.
  induction n as [|m IH]; [by left|].
  cbn [scan]. destruct (String.eqb_spec (ToString (static_cast (S m))) str).
  - by right.
  - exact IH.
Qed.

(** What [FromString] returns, phase by phase: the alias found, if any,
    and otherwise the result of the scan from [EM_Last - 1]. *)
Lemma FromString_phases (str : string) :
  FromString str =
    if EM_eqb (alias_names str) EM_Unknown
    then (scan 47 str, negb (EM_eqb (scan 47 str) EM_Unknown))
    else (alias_names str, true).
Proof.
  unfold FromString, default_names. fold (alias_names str).
  destruct (EM_eqb (alias_names str) EM_Unknown) eqn:E; [done|].
  by rewrite E.
Qed.

(** An alias never names a sentinel: each block keeps the value it is
    given or assigns a selectable one. *)
Ltac block_cases str :=
  repeat match goal with
         | |- context [String.eqb str ?lit] =>
             destruct (String.eqb str lit); cbv beta iota delta [orb]
         end;
  auto.

Lemma sim_names_keeps (str : string) (value : EnergyMeasure) :
  unknown_or_selectable value -> unknown_or_selectable (sim_names str value).
Proof.
  intros H. unfold sim_names. destruct (EM_eqb value EM_Unknown); [|done].
  block_cases str; by right.
Qed.

Lemma pdm_names_keeps (str : string) (value : EnergyMeasure) :
  unknown_or_selectable value -> unknown_or_selectable (pdm_names str value).
Proof.
  intros H. unfold pdm_names. destruct (EM_eqb value EM_Unknown); [|done].
  block_cases str; by right.
Qed.

Lemma eft_names_keeps (str : string) (value : EnergyMeasure) :
  unknown_or_selectable value -> unknown_or_selectable (eft_names str value).
Proof.
  intros H. unfold eft_names. destruct (EM_eqb value EM_Unknown); [|done].
  block_cases str; by right.
Qed.

Lemma ift_names_keeps (str : string) (value : EnergyMeasure) :
  unknown_or_selectable value -> unknown_or_selectable (ift_names str value).
Proof.
  intros H. unfold ift_names. destruct (EM_eqb value EM_Unknown); [|done].
  block_cases str; by right.
Qed.

Lemma cm_names_keeps (str : string) (value : EnergyMeasure) :
  unknown_or_selectable value -> unknown_or_selectable (cm_names str value).
Proof.
  intros H. unfold cm_names. destruct (EM_eqb value EM_Unknown); [|done].
  block_cases str; by right.
Qed.

Lemma alias_names_selectable (str : string) :
  unknown_or_selectable (alias_names str).
Proof.
  unfold alias_names.
  apply cm_names_keeps, ift_names_keeps, eft_names_keeps, pdm_names_keeps,
    sim_names_keeps.
  by left.
Qed.

(** A successful lookup of anything but the literal [Unknown] gives a
    selectable value. *)
Lemma FromString_selectable (str : string) (value : EnergyMeasure) :
  FromString str = (value, true) -> str <> "Unknown" ->
  selectable value = true.
Proof.
  rewrite FromString_phases. intros H Hstr.
  destruct (EM_eqb (alias_names str) EM_Unknown) eqn:E.
  - pose proof (f_equal fst H) as Hv. pose proof (f_equal snd H) as Hflag.
    cbn [fst snd] in Hv, Hflag. subst value.
    destruct (scan_found 47 str) as [Hs|Hs].
    + by rewrite Hs in Hflag.
    + destruct (selectable (scan 47 str)) eqn:Hsel; [done|].
      apply not_selectable_Unknown in Hsel. congruence.
  - pose proof (f_equal fst H) as Hv. cbn [fst] in Hv. subst value.
    destruct (alias_names_selectable str) as [Ha|Ha]; [|done].
    by rewrite Ha in E.
Qed.

(** C1.  Canonical names round-trip: for every selectable value [e],
    [FromString (ToString e)] is [(e, true)]; hence no two selectable
    values share a canonical name. *)
Theorem FromString_ToString_roundtrip :
  (forall e : EnergyMeasure,
      selectable e = true -> FromString (ToString e) = (e, true)) /\
  (forall e1 e2 : EnergyMeasure,
      selectable e1 = true -> selectable e2 = true ->
      ToString e1 = ToString e2 -> e1 = e2).
Proof.
  assert (forall e : EnergyMeasure,
             selectable e = true -> FromString (ToString e) = (e, true)) as RT.
  { intros e He. destruct e; try discriminate He; by vm_compute. }
  split; [exact RT|].
  intros e1 e2 H1 H2 Heq.
  apply RT in H1, H2. rewrite Heq in H1. congruence.
Qed.

Lemma FromString_ToString_roundtrip_witness :
  selectable EM_SSD = true /\
  FromString (ToString EM_SSD) = (EM_SSD, true) /\
  (ToString EM_L1Norm = ToString EM_L1Norm -> EM_L1Norm = EM_L1Norm).
Proof.
  split; [reflexivity|]. split.
  - apply (proj1 FromString_ToString_roundtrip EM_SSD). reflexivity.
  - apply (proj2 FromString_ToString_roundtrip EM_L1Norm EM_L1Norm);
      reflexivity.
Defined.

(** C2.  The scan of the canonical names starts at [EM_Last - 1], which is
    the sentinel [CM_End], and every sentinel is formatted as [Unknown]:
    on the input [Unknown] the scan stops at once and [FromString] reports
    success with a sentinel, which is not selectable. *)
Theorem FromString_Unknown_is_sentinel :
  FromString "Unknown" = (CM_End, true) /\
  static_cast (to_int EM_Last - 1) = CM_End /\
  sentinel CM_End = true /\
  selectable CM_End = false.
Proof. by vm_compute. Qed.

(** The alias blocks compare whole strings.  A block that does not assign
    the value [e] passes it on only if it was given it. *)
Lemma sim_names_not (str : string) (value e : EnergyMeasure) :
  e <> EM_LNCC -> sim_names str value = e -> value = e.
Proof.
  intros He. unfold sim_names. destruct (EM_eqb value EM_Unknown); [|done].
  block_cases str; congruence.
Qed.

Lemma pdm_names_not (str : string) (value : EnergyMeasure) :
  pdm_names str value = EM_LNCC -> value = EM_LNCC.
Proof.
  unfold pdm_names. destruct (EM_eqb value EM_Unknown); [|done].
  block_cases str; congruence.
Qed.

Lemma eft_names_not (str : string) (value e : EnergyMeasure) :
  e <> EM_ImageEdgeForce -> eft_names str value = e -> value = e.
Proof.
  intros He. unfold eft_names. destruct (EM_eqb value EM_Unknown); [|done].
  block_cases str; congruence.
Qed.

Lemma ift_names_not (str : string) (value e : EnergyMeasure) :
  between IFT_Begin IFT_End e = false -> ift_names str value = e -> value = e.
Proof.
  intros He. unfold ift_names. destruct (EM_eqb value EM_Unknown); [|done].
  block_cases str; intros <-; done.
Qed.

Lemma cm_names_not (str : string) (value e : EnergyMeasure) :
  between CM_Begin CM_End e = false -> cm_names str value = e -> value = e.
Proof.
  intros He. unfold cm_names. destruct (EM_eqb value EM_Unknown); [|done].
  block_cases str; intros <-; done.
Qed.

(** The names that resolve to the cross-correlation measure... *)
Lemma alias_names_LNCC (str : string) :
  alias_names str = EM_LNCC <-> str = "NCC" \/ str = "LCC".
Proof.
  split; [|by intros [-> | ->]].
  unfold alias_names.
  intros H%cm_names_not%ift_names_not%eft_names_not%pdm_names_not; try done.
  revert H. unfold sim_names. cbn [EM_eqb to_int Nat.eqb].
  destruct (String.eqb_spec str "NCC"); [by left|].
  destruct (String.eqb_spec str "LCC"); [by right|done].
Qed.

(** ... and those that resolve to the fiducial registration error. *)
Lemma pdm_names_FRE (str : string) :
  pdm_names str EM_Unknown = EM_FRE -> str ∈ FRE_names.
Proof.
  unfold pdm_names, FRE_names. cbn [EM_eqb to_int Nat.eqb].
  repeat match goal with
         | |- context [String.eqb str ?lit] =>
             destruct (String.eqb_spec str lit);
             [first [ subst; intros _; by repeat constructor
                    | cbv beta iota delta [orb]; discriminate ]
             |cbv beta iota delta [orb]]
         end.
  discriminate.
Qed.

Lemma alias_names_FRE (str : string) :
  alias_names str = EM_FRE <-> str ∈ FRE_names.
Proof.
  split.
  - unfold alias_names.
    intros H%cm_names_not%ift_names_not%eft_names_not; try done.
    destruct (sim_names str EM_Unknown) eqn:Hsim;
      try done; try (apply sim_names_not in Hsim; done).
    by apply pdm_names_FRE.
  - unfold FRE_names. intros H.
    repeat (apply elem_of_cons in H as [->|H]; [reflexivity|]).
    by apply elem_of_nil in H.
Qed.

(** C6.  Aliases are compared as whole strings and are looked up before
    the canonical names are scanned. *)
Theorem FromString_aliases :
  FromString "NCC" = (EM_LNCC, true) /\
  FromString "LCC" = (EM_LNCC, true) /\
  FromString (ToString EM_LNCC) = (EM_LNCC, true) /\
  FromString "Landmark error" = (EM_FRE, true) /\
  FromString "Fiducial Registration Error" = (EM_FRE, true) /\
  FromString (ToString EM_FRE) = (EM_FRE, true) /\
  FromString "ncc" = (EM_Unknown, false) /\
  FromString "NCC " = (EM_Unknown, false) /\
  FromString "landmark error" = (EM_Unknown, false) /\
  (forall str : string,
      alias_names str = EM_LNCC <-> str = "NCC" \/ str = "LCC") /\
  (forall str : string, alias_names str = EM_FRE <-> str ∈ FRE_names) /\
  (forall str : string,
      FromString str =
        if EM_eqb (alias_names str) EM_Unknown
        then (scan (to_int EM_Last - 1) str,
              negb (EM_eqb (scan (to_int EM_Last - 1) str) EM_Unknown))
        else (alias_names str, true)).
Proof.
  repeat (split; [by vm_compute|]).
  split; [exact alias_names_LNCC|].
  split; [exact alias_names_FRE|].
  exact FromString_phases.
Qed.

End EnergyMeasureNames.

(* ===================================================================== *)
(** * Properties of the parameter list functions                           *)
(* ===================================================================== *)

Section ParameterLists.
Import MirtkString Object Reference.

Implicit Types (params other L : ParameterList) (name n k : string).

(** ** [Find] *)

Lemma Find_le L n : Find L n <= length L.
Proof.
  induction L as [|it L IH]; cbn; [lia|].
  destruct (String.eqb it.1 n); lia.
Qed.

(** Below [end ()], [Find] points at an entry of that name... *)
Lemma Find_lookup L n :
  Find L n < length L -> exists v, L !! Find L n = Some (n, v).
Proof.
  induction L as [|[n' v'] L IH]; cbn; [lia|].
  destruct (String.eqb_spec n' n) as [->|Hne]; cbn.
  - by exists v'.
  - intros Hlt. apply IH. lia.
Qed.

(** ... and no entry before it has that name. *)
Lemma Find_before L n j it :
  j < Find L n -> L !! j = Some it -> it.1 <> n.
Proof.
  revert j. induction L as [|[n' v'] L IH]; intros j; cbn; [lia|].
  destruct (String.eqb_spec n' n) as [->|Hne]; cbn; [lia|].
  destruct j as [|j]; cbn.
  - intros _ [= <-]. done.
  - intros Hlt. apply IH. lia.
Qed.

(** [Find] is the least index of an entry of that name. *)
Lemma Find_least L n j v :
  L !! j = Some (n, v) -> Find L n <= j.
Proof.
  intros Hj. destruct (decide (Find L n <= j)) as [|Hgt]; [done|].
  exfalso. by apply (Find_before L n j (n, v)); [lia|..].
Qed.

Lemma Find_end L n : Find L n = length L <-> n ∉ L.*1.
Proof.
  induction L as [|[n' v'] L IH]; cbn.
  - split; [intros _; apply not_elem_of_nil|done].
  - rewrite not_elem_of_cons.
    destruct (String.eqb_spec n' n) as [->|Hne]; cbn.
    + split; [done|]. by intros [? _].
    + rewrite <- IH. split; [intros [= ->]; by split|]. intros [_ ->]. done.
Qed.

Lemma Contains_true L n : Contains L n = true <-> Find L n < length L.
Proof.
  unfold Contains. rewrite negb_true_iff, Nat.eqb_neq.
  pose proof (Find_le L n). lia.
Qed.

Lemma Contains_false L n : Contains L n = false <-> Find L n = length L.
Proof. unfold Contains. by rewrite negb_false_iff, Nat.eqb_eq. Qed.

Lemma Contains_elem_of L n : Contains L n = true <-> n ∈ L.*1.
Proof.
  destruct (Contains L n) eqn:E.
  - split; [intros _|done].
    destruct (decide (n ∈ L.*1)) as [|Hn]; [done|].
    apply Find_end in Hn. apply Contains_true in E. lia.
  - split; [done|]. intros Hin. apply Contains_false, Find_end in E. done.
Qed.

(** [Find] looks at the names only. *)
Lemma Find_names L L' n : L.*1 = L'.*1 -> Find L n = Find L' n.
Proof.
  revert L'. induction L as [|it L IH]; intros [|it' L']; cbn; try done.
  intros [= H1 H2]. rewrite H1. by rewrite (IH L' H2).
Qed.

Lemma Find_app_l L L' n :
  Find L n < length L -> Find (L ++ L') n = Find L n.
Proof.
  induction L as [|it L IH]; cbn; [lia|].
  destruct (String.eqb it.1 n); [done|]. intros H. rewrite IH; [done|lia].
Qed.

Lemma Find_app_r L L' n :
  Find L n = length L -> Find (L ++ L') n = length L + Find L' n.
Proof.
  induction L as [|it L IH]; cbn; [done|].
  destruct (String.eqb it.1 n); [done|]. intros [= H]. by rewrite IH.
Qed.

Lemma Get_lookup L n v : L !! Find L n = Some (n, v) -> Get L n = v.
Proof.
  intros H. unfold Get. rewrite H.
  apply lookup_lt_Some in H. apply Nat.lt_neq, Nat.eqb_neq in H.
  by rewrite H.
Qed.

Lemma Get_absent L n : Find L n = length L -> Get L n = "".
Proof. intros H. unfold Get. by rewrite H, Nat.eqb_refl. Qed.

(** ** [Insert] of one entry *)

(** The three overloads have one body: the primary template is the string
    specialisation applied to the formatted value. *)
Lemma Insert_as_string {T : Type} (ToString : T -> string) L n (v : T) :
  Insert ToString L n v = Insert_string L n (ToString v).
Proof. reflexivity. Qed.

Lemma set_second_names v i L : (alter (set_second v) i L).*1 = L.*1.
Proof.
  revert i. induction L as [|it L IH]; intros [|i]; cbn; try done.
  by rewrite IH.
Qed.

Lemma Insert_string_absent L n v :
  Find L n = length L -> Insert_string L n v = L ++ [(n, v)].
Proof. intros H. unfold Insert_string. by rewrite H, Nat.eqb_refl. Qed.

Lemma Insert_string_present L n v :
  Find L n < length L ->
  Insert_string L n v = alter (set_second v) (Find L n) L.
Proof.
  intros H. unfold Insert_string.
  apply Nat.lt_neq, Nat.eqb_neq in H. by rewrite H.
Qed.

(** Overwriting the value of an entry named [n] is storing [(n, v)]. *)
Lemma alter_set_second L n v v0 i :
  L !! i = Some (n, v0) -> alter (set_second v) i L = <[i := (n, v)]> L.
Proof.
  revert i. induction L as [|it L IH]; intros [|i]; cbn; try done.
  - by intros [= ->].
  - intros H. f_equal. by apply IH.
Qed.

Lemma Find_Insert_string L n v k :
  Find (Insert_string L n v) k =
    if decide (Find L n = length L)
    then (if decide (Find L k = length L)
          then (if String.eqb n k then length L else S (length L))
          else Find L k)
    else Find L k.
Proof.
  destruct (decide (Find L n = length L)) as [Hn|Hn].
  - rewrite Insert_string_absent by done.
    destruct (decide (Find L k = length L)) as [Hk|Hk].
    + rewrite Find_app_r by done. cbn.
      destruct (String.eqb n k); lia.
    + rewrite Find_app_l; [done|]. pose proof (Find_le L k). lia.
  - pose proof (Find_le L n).
    rewrite Insert_string_present by lia.
    apply Find_names, set_second_names.
Qed.

Lemma length_Insert_string L n v :
  length (Insert_string L n v) =
    if decide (Find L n = length L) then S (length L) else length L.
Proof.
  destruct (decide (Find L n = length L)) as [Hn|Hn].
  - rewrite Insert_string_absent by done. rewrite length_app. cbn. lia.
  - pose proof (Find_le L n).
    rewrite Insert_string_present by lia. apply length_alter.
Qed.

Lemma Contains_Insert_string L n v k :
  Contains (Insert_string L n v) k = String.eqb n k || Contains L k.
Proof.
  unfold Contains. rewrite Find_Insert_string, length_Insert_string.
  pose proof (Find_le L k). pose proof (Find_le L n).
  destruct (String.eqb_spec n k) as [->|Hne]; cbn [orb].
  - repeat case_decide; apply negb_true_iff, Nat.eqb_neq; lia.
  - f_equal. repeat case_decide;
      apply eq_true_iff_eq; rewrite !Nat.eqb_eq; lia.
Qed.

Lemma Get_Insert_string_eq L n v : Get (Insert_string L n v) n = v.
Proof.
  apply Get_lookup. rewrite Find_Insert_string, String.eqb_refl.
  destruct (decide (Find L n = length L)) as [Hn|Hn].
  - rewrite Insert_string_absent by done.
    by rewrite lookup_app_r, Nat.sub_diag.
  - pose proof (Find_le L n).
    destruct (Find_lookup L n) as [v0 Hv0]; [lia|].
    rewrite Insert_string_present by lia.
    by rewrite list_lookup_alter_eq, Hv0.
Qed.

Lemma Get_Insert_string_ne L n v k :
  n <> k -> Get (Insert_string L n v) k = Get L k.
Proof.
  intros Hne. unfold Get at 1.
  rewrite Find_Insert_string, length_Insert_string.
  apply String.eqb_neq in Hne as Hb. rewrite Hb.
  pose proof (Find_le L k). pose proof (Find_le L n).
  destruct (decide (Find L n = length L)) as [Hn|Hn].
  - rewrite Insert_string_absent by done.
    destruct (decide (Find L k = length L)) as [Hk|Hk].
    + rewrite Nat.eqb_refl. by rewrite Get_absent.
    + replace (Find L k =? S (length L)) with false
        by (symmetry; apply Nat.eqb_neq; lia).
      rewrite lookup_app_l by lia. unfold Get.
      apply Nat.eqb_neq in Hk. by rewrite Hk.
  - rewrite Insert_string_present by lia.
    destruct (decide (Find L k = length L)) as [Hk|Hk].
    + rewrite Hk, Nat.eqb_refl. by rewrite Get_absent.
    + destruct (Find_lookup L n) as [v0 Hv0]; [lia|].
      destruct (Find_lookup L k) as [v1 Hv1]; [lia|].
      assert (Find L n <> Find L k) by (intros E; rewrite E in Hv0; congruence).
      rewrite list_lookup_alter_ne by done. unfold Get.
      by destruct (Find L k =? length L).
Qed.

(** ** [Remove] *)

Lemma Remove_absent L n : Find L n = length L -> Remove L n = L.
Proof. intros H. unfold Remove. by rewrite H, Nat.eqb_refl. Qed.

Lemma Remove_present L n :
  Find L n < length L -> Remove L n = delete (Find L n) L.
Proof.
  intros H. unfold Remove. apply Nat.lt_neq, Nat.eqb_neq in H. by rewrite H.
Qed.

(** No entry before the one that [Find] returns has the name. *)
Lemma Contains_take_Find L n : Contains (take (Find L n) L) n = false.
Proof.
  destruct (Contains (take (Find L n) L) n) eqn:E; [|done].
  apply Contains_elem_of, list_elem_of_fmap in E as ([n' v] & -> & Hin).
  apply list_elem_of_lookup in Hin as [j Hj].
  apply lookup_take_Some in Hj as [Hj Hlt].
  by destruct (Find_before L n' j (n', v)).
Qed.

Lemma Contains_app L L' n :
  Contains (L ++ L') n = Contains L n || Contains L' n.
Proof.
  apply eq_true_iff_eq.
  rewrite orb_true_iff, !Contains_elem_of, fmap_app. apply elem_of_app.
Qed.

(** ** The claims about a single list *)

Section InsertOne.
Context {T : Type} (ToString : T -> string).

(** C4.  [Insert] appends an entry for an absent name, after which the name
    is contained and [Get] returns the formatted value; for a present name
    it overwrites the value of the first entry of that name and nothing
    else, so that the length and the position of the entry are kept. *)
Theorem Insert_update_or_append L n (v : T) :
  (Contains L n = false ->
     Insert ToString L n v = L ++ [(n, ToString v)] /\
     Contains (Insert ToString L n v) n = true /\
     Get (Insert ToString L n v) n = ToString v) /\
  (Contains L n = true ->
     exists v1,
       L !! Find L n = Some (n, v1) /\
       (forall j it, j < Find L n -> L !! j = Some it -> it.1 <> n) /\
       Insert ToString L n v = <[Find L n := (n, ToString v)]> L /\
       length (Insert ToString L n v) = length L /\
       Find (Insert ToString L n v) n = Find L n /\
       (forall j, j <> Find L n -> Insert ToString L n v !! j = L !! j) /\
       Get (Insert ToString L n v) n = ToString v).
Proof.
  rewrite Insert_as_string. split.
  - intros Habs%Contains_false. split; [by apply Insert_string_absent|].
    split; [|apply Get_Insert_string_eq].
    by rewrite Contains_Insert_string, String.eqb_refl.
  - intros Hin%Contains_true.
    destruct (Find_lookup L n Hin) as [v1 Hv1]. exists v1.
    assert (Insert_string L n (ToString v)
            = <[Find L n := (n, ToString v)]> L) as Heq.
    { rewrite Insert_string_present by done. by eapply alter_set_second. }
    split; [done|]. split; [apply Find_before|]. split; [done|].
    split; [by rewrite Heq, length_insert|].
    split.
    { rewrite Find_Insert_string. rewrite decide_False; [done|lia]. }
    split; [|apply Get_Insert_string_eq].
    intros j Hj. rewrite Heq. by apply list_lookup_insert_ne.
Qed.

End InsertOne.

Lemma Insert_update_or_append_witness :
  (Insert ToString_default [("a", "1")] "b" "2" = [("a", "1"); ("b", "2")] /\
   Contains (Insert ToString_default [("a", "1")] "b" "2") "b" = true /\
   Get (Insert ToString_default [("a", "1")] "b" "2") "b"
     = ToString_default "2") /\
  length (Insert ToString_default [("a", "1"); ("b", "2"); ("a", "3")] "a" "4")
    = 3.
Proof.
  split.
  - apply (proj1 (Insert_update_or_append ToString_default
                    [("a", "1")] "b" "2")).
    reflexivity.
  - destruct (proj2 (Insert_update_or_append ToString_default
                       [("a", "1"); ("b", "2"); ("a", "3")] "a" "4"))
      as (v1 & _ & _ & _ & Hlen & _); [reflexivity|exact Hlen].
Defined.

(** C7.  The string overloads and the generic overload of [Insert] return
    the same list: the generic one stores the formatted value by the rule
    the string overloads use, and formatting a string leaves it as it is. *)
Theorem Insert_overloads_agree L n (value : string) :
  Insert ToString_default L n value = Insert_string L n value /\
  Insert_cstr L n value = Insert_string L n value /\
  (forall (T : Type) (ToString : T -> string) (v : T),
      Insert ToString L n v = Insert_string L n (ToString v) /\
      Insert ToString L n v = Insert_cstr L n (ToString v)).
Proof.
  split; [|by repeat split].
  by rewrite Insert_as_string, ToString_default_id.
Qed.

(** C8.  [Remove] erases the first entry of the given name: the entries
    before it and after it stay, in order, and none of the entries up to
    the erased position has the name; for an absent name the list is
    returned as it was. *)
Theorem Remove_first_or_unchanged L n :
  (Contains L n = true ->
     exists v,
       L !! Find L n = Some (n, v) /\
       (forall j it, j < Find L n -> L !! j = Some it -> it.1 <> n) /\
       Remove L n = take (Find L n) L ++ drop (S (Find L n)) L /\
       S (length (Remove L n)) = length L /\
       Contains (take (Find L n) (Remove L n)) n = false /\
       Contains (Remove L n) n = Contains (drop (S (Find L n)) L) n) /\
  (Contains L n = false -> Remove L n = L).
Proof.
  split.
  - intros Hin%Contains_true.
    destruct (Find_lookup L n Hin) as [v Hv]. exists v.
    assert (Remove L n = take (Find L n) L ++ drop (S (Find L n)) L) as Heq.
    { rewrite Remove_present by done. apply delete_take_drop. }
    split; [done|]. split; [apply Find_before|]. split; [done|].
    split.
    { rewrite Remove_present by done. rewrite length_delete by eauto. lia. }
    assert (take (Find L n) (Remove L n) = take (Find L n) L) as Htake.
    { rewrite Heq. rewrite take_app_le by (rewrite length_take; lia).
      apply take_idemp. }
    split.
    + rewrite Htake. apply Contains_take_Find.
    + rewrite Heq, Contains_app. by rewrite Contains_take_Find.
  - intros Habs%Contains_false. by apply Remove_absent.
Qed.

Lemma Remove_first_or_unchanged_witness :
  S (length (Remove [("a", "1"); ("b", "2"); ("a", "3")] "b")) = 3 /\
  Remove [("a", "1"); ("b", "2")] "c" = [("a", "1"); ("b", "2")].
Proof.
  split.
  - destruct (proj1 (Remove_first_or_unchanged
                       [("a", "1"); ("b", "2"); ("a", "3")] "b"))
      as (v & _ & _ & _ & Hlen & _); [reflexivity|exact Hlen].
  - apply (proj2 (Remove_first_or_unchanged [("a", "1"); ("b", "2")] "c")).
    reflexivity.
Defined.

(** C10, as stated, fails for [Remove].  In a list in which the name occurs
    twice, erasing the first occurrence moves the second one from position
    2 to position 1: it does not keep its position. *)
Lemma Remove_moves_later_duplicate :
  Find [("a", "1"); ("b", "2"); ("a", "3")] "a" = 0 /\
  [("a", "1"); ("b", "2"); ("a", "3")] !! 2 = Some ("a", "3") /\
  Remove [("a", "1"); ("b", "2"); ("a", "3")] "a" !! 2 = None /\
  Remove [("a", "1"); ("b", "2"); ("a", "3")] "a" !! 2
    <> [("a", "1"); ("b", "2"); ("a", "3")] !! 2.
Proof. repeat split. discriminate. Qed.

(** C10 (amended).  With a name that occurs in the list, possibly several
    times, [Find] and [Get] return the first entry of that name and its
    value; [Insert] stores the new value there and leaves every other
    entry, duplicates included, at its position with its value; [Remove]
    erases that entry only, the entries before it keep their positions and
    the entries after it, duplicates included, keep their values and their
    order, each one position lower. *)
Theorem first_occurrence_only L n :
  Contains L n = true ->
  (exists v1,
      L !! Find L n = Some (n, v1) /\ Get L n = v1 /\
      (forall j it, j < Find L n -> L !! j = Some it -> it.1 <> n)) /\
  (forall (T : Type) (ToString : T -> string) (v : T),
      Insert ToString L n v !! Find L n = Some (n, ToString v) /\
      (forall j, j <> Find L n -> Insert ToString L n v !! j = L !! j)) /\
  (forall value : string,
      Insert_string L n value !! Find L n = Some (n, value) /\
      Insert_cstr L n value !! Find L n = Some (n, value) /\
      (forall j, j <> Find L n ->
                 Insert_string L n value !! j = L !! j /\
                 Insert_cstr L n value !! j = L !! j)) /\
  (forall j, j < Find L n -> Remove L n !! j = L !! j) /\
  (forall j, Find L n <= j -> Remove L n !! j = L !! S j).
Proof.
  intros Hin%Contains_true.
  destruct (Find_lookup L n Hin) as [v1 Hv1].
  assert (forall value,
             Insert_string L n value !! Find L n = Some (n, value) /\
             (forall j, j <> Find L n -> Insert_string L n value !! j = L !! j))
    as Hins.
  { intros value. rewrite Insert_string_present by done.
    rewrite (alter_set_second L n value v1) by done. split.
    - by apply list_lookup_insert_eq.
    - intros j Hj. by apply list_lookup_insert_ne. }
  split; [|split; [|split; [|split]]].
  - exists v1. split; [done|]. split; [by apply Get_lookup|].
    apply Find_before.
  - intros T ToString v. rewrite Insert_as_string. apply Hins.
  - intros value. change (Insert_cstr L n value) with (Insert_string L n value).
    destruct (Hins value) as [H1 H2]. split; [done|]. split; [done|].
    intros j Hj. split; by apply H2.
  - intros j Hj. rewrite Remove_present by done.
    by apply list_lookup_delete_lt.
  - intros j Hj. rewrite Remove_present by done.
    by apply list_lookup_delete_ge.
Qed.

Lemma first_occurrence_only_witness :
  Remove [("a", "1"); ("b", "2"); ("a", "3")] "a" !! 1
    = [("a", "1"); ("b", "2"); ("a", "3")] !! 2.
Proof.
  apply (first_occurrence_only [("a", "1"); ("b", "2"); ("a", "3")] "a").
  - reflexivity.
  - cbn. lia.
Defined.

(** ** Merging a list into another *)

Lemma append_cons (c : ascii) (s t : string) :
  String c s +:+ t = String c (s +:+ t).
Proof. reflexivity. Qed.

Lemma append_assoc (s t u : string) : (s +:+ t) +:+ u = s +:+ t +:+ u.
Proof.
  induction s as [|c s IH]; [done|]. by rewrite !append_cons, IH.
Qed.

Lemma append_nil_r (s : string) : s +:+ "" = s.
Proof. induction s as [|c s IH]; [done|]. by rewrite append_cons, IH. Qed.

(** The access to position 0 never fails: it is the first character of a
    name that has one, and the terminator of the empty name, which is given
    the null character again.  Either way the name is the one the
    specification describes. *)
Lemma lower_first_cons (c : ascii) (rest : string) :
  lower_first (String c rest) = Some (String (tolower c) rest).
Proof. reflexivity. Qed.

Lemma lower_first_empty : lower_first "" = Some "".
Proof. reflexivity. Qed.

Lemma lower_first_total name :
  lower_first name = Some (lowercased_first_letter name).
Proof. by destruct name. Qed.

Lemma lower_first_Some name :
  name <> "" -> lower_first name = Some (lowercased_first_letter name).
Proof. intros _. apply lower_first_total. Qed.

Lemma Insert_prefixed_total params other prefix :
  Insert_prefixed params other prefix =
    Some (Insert_verbatim params (merged_entry prefix <$> other)).
Proof.
  revert params. induction other as [|it rest IH]; intros params; [done|].
  cbn [Insert_prefixed]. rewrite lower_first_total. cbn.
  rewrite IH. by rewrite append_assoc.
Qed.

Lemma Insert_prefixed_Some params other prefix :
  Forall (fun it => it.1 <> "") other ->
  Insert_prefixed params other prefix =
    Some (Insert_verbatim params (merged_entry prefix <$> other)).
Proof. intros _. apply Insert_prefixed_total. Qed.

Lemma Contains_cons it L k :
  Contains (it :: L) k = String.eqb it.1 k || Contains L k.
Proof.
  apply eq_true_iff_eq.
  rewrite orb_true_iff, !Contains_elem_of, String.eqb_eq. cbn.
  rewrite elem_of_cons. split; intros [?|?]; auto.
Qed.

(** The names of a verbatim merge are those of the target and of the
    source. *)
Lemma Contains_Insert_verbatim params other k :
  Contains (Insert_verbatim params other) k
  = Contains params k || Contains other k.
Proof.
  revert params. induction other as [|it rest IH]; intros params; cbn.
  - change (Contains [] k) with false. by rewrite orb_false_r.
  - rewrite IH, Contains_Insert_string, Contains_cons.
    by destruct (String.eqb it.1 k), (Contains params k).
Qed.

(** The entries of the target keep their places: the merge only overwrites
    values and appends. *)
Lemma Insert_verbatim_names params other :
  take (length params) (Insert_verbatim params other).*1 = params.*1.
Proof.
  revert params. induction other as [|it rest IH]; intros params; cbn.
  - rewrite take_ge; [done|]. by rewrite length_fmap.
  - pose proof (IH (Insert_string params it.1 it.2)) as H.
    pose proof (Find_le params it.1).
    destruct (decide (Find params it.1 = length params)) as [Hn|Hn].
    + rewrite Insert_string_absent in H |- * by done.
      rewrite length_app, fmap_app in H.
      apply (f_equal (take (length params))) in H.
      rewrite take_take in H. rewrite Nat.min_l in H by lia.
      rewrite H. rewrite take_app_le by (rewrite length_fmap; lia).
      apply take_ge. by rewrite length_fmap.
    + rewrite Insert_string_present in H |- * by lia.
      by rewrite length_alter, set_second_names in H.
Qed.

(** A name of the source ends up with the value of its last entry there;
    any other name keeps the value it has in the target. *)
Lemma Get_app_one L it k :
  Get (L ++ [it]) k =
    if Contains L k then Get L k
    else if String.eqb it.1 k then it.2 else "".
Proof.
  pose proof (Find_le L k).
  destruct (Contains L k) eqn:E.
  - apply Contains_true in E. unfold Get. rewrite Find_app_l by done.
    rewrite length_app. cbn.
    replace (Find L k =? length L + 1) with false
      by (symmetry; apply Nat.eqb_neq; lia).
    replace (Find L k =? length L) with false
      by (symmetry; apply Nat.eqb_neq; lia).
    by rewrite lookup_app_l.
  - apply Contains_false in E. unfold Get. rewrite Find_app_r by done.
    rewrite length_app. cbn.
    destruct (String.eqb it.1 k).
    + replace (length L + 0 =? length L + 1) with false
        by (symmetry; apply Nat.eqb_neq; lia).
      rewrite lookup_app_r by lia.
      by replace (length L + 0 - length L) with 0 by lia.
    + by replace (length L + 1 =? length L + 1) with true
        by (symmetry; apply Nat.eqb_eq; lia).
Qed.

Lemma Get_Insert_verbatim params other k :
  Get (Insert_verbatim params other) k =
    if Contains other k then Get (reverse other) k else Get params k.
Proof.
  revert params.
  induction other as [|it rest IH]; intros params; cbn [Insert_verbatim].
  - done.
  - rewrite IH, Contains_cons, reverse_cons, Get_app_one.
    assert (Contains (reverse rest) k = Contains rest k) as ->.
    { apply eq_true_iff_eq. rewrite !Contains_elem_of, fmap_reverse.
      apply elem_of_reverse. }
    destruct (Contains rest k); [by rewrite orb_true_r|].
    rewrite orb_false_r.
    destruct (String.eqb_spec it.1 k) as [<-|Hne].
    + apply Get_Insert_string_eq.
    + by apply Get_Insert_string_ne.
Qed.

Lemma tolower_upper (c : ascii) :
  65 <= nat_of_ascii c <= 90 ->
  tolower c = ascii_of_nat (nat_of_ascii c + 32).
Proof.
  intros [H1 H2]. unfold tolower.
  apply Nat.leb_le in H1, H2. by rewrite H1, H2.
Qed.

Lemma tolower_other (c : ascii) :
  ~ 65 <= nat_of_ascii c <= 90 -> tolower c = c.
Proof.
  intros H. unfold tolower.
  destruct (Nat.leb_spec 65 (nat_of_ascii c)); [|done].
  destruct (Nat.leb_spec (nat_of_ascii c) 90); [|done].
  lia.
Qed.

(** C3.  Under a prefix the merge of any source is the verbatim merge of
    its entries renamed to prefix, space, name with its first character in
    lower case (an empty name stays empty); a null prefix merges the names
    as they are; either way by update or append, entry after entry. *)
Theorem Insert_list_prefix :
  Insert_list [] [("Radius", "3")] (Some "Inner")
    = Some [("Inner radius", "3")] /\
  (forall params other prefix,
      Insert_list params other (Some prefix)
        = Some (Insert_verbatim params (merged_entry prefix <$> other))) /\
  (forall prefix c rest value,
      merged_entry prefix (String c rest, value)
        = (prefix +:+ " " +:+ String (tolower c) rest, value)) /\
  (forall prefix value,
      merged_entry prefix ("", value) = (prefix +:+ " ", value)) /\
  (forall c, 65 <= nat_of_ascii c <= 90 ->
             tolower c = ascii_of_nat (nat_of_ascii c + 32)) /\
  (forall c, ~ 65 <= nat_of_ascii c <= 90 -> tolower c = c) /\
  (forall params other,
      Insert_list params other None = Some (Insert_verbatim params other)) /\
  (forall params it rest,
      Insert_verbatim params [] = params /\
      Insert_verbatim params (it :: rest)
        = Insert_verbatim (Insert_string params it.1 it.2) rest) /\
  (forall params other k,
      Contains (Insert_verbatim params other) k
        = Contains params k || Contains other k) /\
  (forall params other k,
      Get (Insert_verbatim params other) k
        = if Contains other k then Get (reverse other) k else Get params k) /\
  (forall params other,
      take (length params) (Insert_verbatim params other).*1 = params.*1).
Proof.
  split; [reflexivity|].
  split; [intros params other prefix; apply Insert_prefixed_total|].
  split; [reflexivity|].
  split.
  { intros prefix value. unfold merged_entry, merged_name. cbn.
    by rewrite <- append_assoc, append_nil_r. }
  split; [exact tolower_upper|].
  split; [exact tolower_other|].
  split; [reflexivity|].
  split; [by split|].
  split; [exact Contains_Insert_verbatim|].
  split; [exact Get_Insert_verbatim|].
  exact Insert_verbatim_names.
Qed.

Lemma Insert_list_prefix_witness :
  Insert_list [("Outer radius", "5"); ("Inner radius", "1")]
    [("Radius", "3"); ("", "4"); ("Center", "0 0")] (Some "Inner")
  = Some [("Outer radius", "5"); ("Inner radius", "3"); ("Inner ", "4");
          ("Inner center", "0 0")] /\
  tolower "R" = "r"%char /\
  tolower "r" = "r"%char.
Proof.
  destruct Insert_list_prefix as (_ & Hpre & _ & _ & Hup & Hlow & _).
  split; [|split].
  - rewrite Hpre. reflexivity.
  - rewrite Hup; [reflexivity|]. vm_compute. lia.
  - apply Hlow. vm_compute. lia.
Defined.

(** C9, as stated, fails on a source with an empty name: position 0 of the
    empty name is its terminator, the merge reads it, stores the null
    character back and goes on, and the entry is merged under the prefix
    and a space.  No error is reached. *)
Lemma Insert_list_empty_name :
  Exists (fun it => it.1 = "") [("Radius", "3"); ("", "4")] /\
  Insert_list [] [("Radius", "3"); ("", "4")] (Some "Inner")
    = Some [("Inner radius", "3"); ("Inner ", "4")] /\
  Insert_list [] [("Radius", "3"); ("", "4")] (Some "Inner") <> None.
Proof.
  split; [apply Exists_cons_tl, Exists_cons_hd; reflexivity|].
  split; [reflexivity|discriminate].
Qed.

(** C9 (amended).  The prefixed merge reads and writes position 0 of every
    source name.  In a name that is not empty this is its first character.
    In the empty name it is the terminator, where the access is defined:
    the null character is read, [tolower] returns it, and storing it back
    leaves the name empty.  So the merge is defined on every source, and
    the error branch of the element access, which exists beyond the
    terminator and for any other character stored into it, is never
    taken; without a prefix no name is accessed. *)
Theorem Insert_list_defined params other prefix :
  (forall c rest, char_at (String c rest) 0 = Some c) /\
  char_at "" 0 = Some Ascii.zero /\
  tolower Ascii.zero = Ascii.zero /\
  assign_at "" 0 Ascii.zero = Some "" /\
  (forall name pos, String.length name < pos -> char_at name pos = None) /\
  (forall c, c <> Ascii.zero -> assign_at "" 0 c = None) /\
  (forall name, lower_first name = Some (lowercased_first_letter name)) /\
  Insert_list params other (Some prefix)
    = Some (Insert_verbatim params (merged_entry prefix <$> other)) /\
  Insert_list params other None = Some (Insert_verbatim params other).
Proof.
  split; [done|]. split; [done|]. split; [done|]. split; [done|].
  split.
  { intros name pos Hpos. unfold char_at.
    assert (String.get pos name = None) as ->.
    { revert pos Hpos. induction name as [|c name IH]; intros [|pos] Hpos;
        cbn in *; [lia|done|lia|]. apply IH. lia. }
    apply Nat.lt_neq, not_eq_sym, Nat.eqb_neq in Hpos. by rewrite Hpos. }
  split.
  { intros c Hc. cbn. destruct (Ascii.eqb_spec c Ascii.zero); done. }
  split; [exact lower_first_total|].
  split; [apply Insert_prefixed_total|done].
Qed.

Lemma Insert_list_defined_witness :
  char_at "Radius" 7 = None /\ assign_at "" 0 "a" = None.
Proof.
  destruct (Insert_list_defined [] [] "") as (_ & _ & _ & _ & Hbeyond & Hnull & _).
  split.
  - apply Hbeyond. vm_compute. lia.
  - apply Hnull. discriminate.
Defined.

(** ** [Object::Parameter] *)

Lemma Parameter_set_app {Self : Type} (cls : Class Self) this param1 param2 :
  Parameter_set cls this (param1 ++ param2)
  = Parameter_set cls (Parameter_set cls this param1) param2.
Proof.
  revert this. induction param1 as [|it rest IH]; intros this; [done|].
  cbn. apply IH.
Qed.

(** The log of an instrumented object grows by exactly the list applied. *)
Lemma Parameter_set_logged {Self : Type} (cls : Class Self) this log param :
  Parameter_set (logged cls) (this, log) param
  = (Parameter_set cls this param, log ++ param).
Proof.
  revert this log. induction param as [|it rest IH]; intros this log; cbn.
  - by rewrite app_nil_r.
  - rewrite IH. f_equal. by rewrite <- app_assoc, <- surjective_pairing.
Qed.

(** Entries that [Set] refuses without touching the object can be left
    out. *)
Lemma Parameter_set_filter {Self : Type} (cls : Class Self)
    (known : string -> bool) this param :
  (forall this name value,
      known name = false -> Set_ cls this name value = (this, false)) ->
  Parameter_set cls this param
  = Parameter_set cls this (filter (fun it => known it.1 = true) param).
Proof.
  intros Hrefuse. revert this.
  induction param as [|it rest IH]; intros this; [done|].
  rewrite filter_cons. destruct (known it.1) eqn:Hk.
  - rewrite decide_True by done. cbn. apply IH.
  - rewrite decide_False by done. cbn. rewrite Hrefuse by done. apply IH.
Qed.

(** C5.  [Parameter (list)] calls [Set] once for every entry, in the order
    of the list, with the name and the value of the entry, and drops what
    [Set] returns; an entry that [Set] refuses is passed over; the [Set] of
    the root class refuses everything. *)
Theorem Parameter_set_calls_Set {Self : Type} (cls : Class Self)
    (this : Self) (param : ParameterList) :
  (forall log,
      Parameter_set (logged cls) (this, log) param
      = (Parameter_set cls this param, log ++ param)) /\
  (forall it rest,
      Parameter_set cls this (it :: rest)
      = Parameter_set cls (Set_ cls this it.1 it.2).1 rest) /\
  (forall known : string -> bool,
      (forall this name value,
          known name = false -> Set_ cls this name value = (this, false)) ->
      Parameter_set cls this param
      = Parameter_set cls this (filter (fun it => known it.1 = true) param)) /\
  (forall name value, Object_Set this name value = (this, false)) /\
  (forall name, Parameter_set (plain Self name) this param = this).
Proof.
  split; [intros log; apply Parameter_set_logged|].
  split; [done|].
  split; [intros known; apply Parameter_set_filter|].
  split; [done|].
  intros name. rewrite (Parameter_set_filter _ (fun _ => false)) by done.
  clear. by induction param.
Qed.

Lemma Parameter_set_calls_Set_witness :
  Parameter_set Sphere "1" [("Colour", "red"); ("Radius", "3")]
  = Parameter_set Sphere "1" [("Radius", "3")] /\
  Parameter_set Sphere "1" [("Colour", "red"); ("Radius", "3")] = "3" /\
  Parameter_set (logged Sphere) ("1", [])
    [("Colour", "red"); ("Radius", "3")]
  = ("3", [("Colour", "red"); ("Radius", "3")]).
Proof.
  split; [|split; reflexivity].
  apply (proj1 (proj2 (proj2 (Parameter_set_calls_Set Sphere "1"
           [("Colour", "red"); ("Radius", "3")])))
         (fun name => String.eqb name "Radius")).
  intros this name value Hname. cbn. by rewrite Hname.
Defined.

End ParameterLists.

(* ===================================================================== *)
(** * More on the lookup of energy measure names                           *)
(* ===================================================================== *)

Section EnergyMeasureLookup.
Import MirtkString EnergyMeasure Reference AliasTables.

Lemma static_cast_bound (n : nat) :
  n <= 48 -> to_int (static_cast n) = n.
Proof.
  intros Hn. do 49 (destruct n as [|n]; [reflexivity|]). lia.
Qed.

(** Nothing between the result of the scan and its start has the input as
    its name. *)
Lemma scan_skips (n : nat) (str : string) (k : nat) :
  n <= 48 -> to_int (scan n str) < k <= n ->
  ToString (static_cast k) <> str.
Proof.
  induction n as [|m IH]; [lia|]. intros Hn.
  cbn [scan]. destruct (String.eqb_spec (ToString (static_cast (S m))) str)
    as [Heq|Hne].
  - rewrite static_cast_bound by done. lia.
  - intros [Hlt Hle]. destruct (decide (k = S m)) as [->|]; [done|].
    apply IH; lia.
Qed.

Lemma scan_bound (n : nat) (str : string) :
  n <= 48 -> to_int (scan n str) <= n.
Proof.
  induction n as [|m IH]; [done|]. intros Hn.
  cbn [scan]. destruct (String.eqb (ToString (static_cast (S m))) str).
  - by rewrite static_cast_bound.
  - specialize (IH ltac:(lia)). lia.
Qed.

(** Which strings make a block assign a value. *)
Ltac literal_cases str :=
  repeat match goal with
         | |- context [String.eqb str ?lit] =>
             destruct (String.eqb_spec str lit);
             [subst; intros _; by repeat constructor
             |cbv beta iota delta [orb]]
         end.

Lemma sim_names_fires (str : string) :
  sim_names str EM_Unknown <> EM_Unknown -> str ∈ sim_strings.
Proof.
  unfold sim_names, sim_strings. cbn [EM_eqb to_int Nat.eqb].
  literal_cases str. done.
Qed.

Lemma pdm_names_fires (str : string) :
  pdm_names str EM_Unknown <> EM_Unknown -> str ∈ pdm_strings.
Proof.
  unfold pdm_names, pdm_strings. cbn [EM_eqb to_int Nat.eqb].
  literal_cases str. done.
Qed.

Lemma eft_names_fires (str : string) :
  eft_names str EM_Unknown <> EM_Unknown -> str ∈ eft_strings.
Proof.
  unfold eft_names, eft_strings. cbn [EM_eqb to_int Nat.eqb].
  literal_cases str. done.
Qed.

Lemma ift_names_fires (str : string) :
  ift_names str EM_Unknown <> EM_Unknown -> str ∈ ift_strings.
Proof.
  unfold ift_names, ift_strings. cbn [EM_eqb to_int Nat.eqb].
  literal_cases str. done.
Qed.

Lemma cm_names_fires (str : string) :
  cm_names str EM_Unknown <> EM_Unknown -> str ∈ cm_strings.
Proof.
  unfold cm_names, cm_strings. cbn [EM_eqb to_int Nat.eqb].
  literal_cases str. done.
Qed.

(** Every block keeps a value that is set. *)
Lemma blocks_guarded : Forall guarded blocks.
Proof.
  unfold blocks.
  repeat (constructor;
          [intros str value;
           destruct (EM_eqb value EM_Unknown) eqn:E;
           [apply EM_eqb_eq in E; by subst value|];
           unfold cm_names, ift_names, eft_names, pdm_names, sim_names;
           by rewrite E|]).
  constructor.
Qed.

Lemma blocks_lookup_guarded j block : blocks !! j = Some block -> guarded block.
Proof. intros H. by apply (Forall_lookup_1 _ _ _ _ blocks_guarded H). Qed.

(** No string is compared with in two blocks. *)
Ltac in_table H :=
  first [ apply sim_names_fires in H; unfold sim_strings in H
        | apply pdm_names_fires in H; unfold pdm_strings in H
        | apply eft_names_fires in H; unfold eft_strings in H
        | apply ift_names_fires in H; unfold ift_strings in H
        | apply cm_names_fires in H; unfold cm_strings in H ].

Ltac not_in_both Ha Hb :=
  in_table Ha; in_table Hb;
  repeat (apply elem_of_cons in Ha as [->|Ha];
          [by (apply (bool_decide_pack _) in Hb; vm_compute in Hb)|]);
  by apply elem_of_nil in Ha.

Lemma blocks_exclusive (str : string) j1 block1 j2 block2 :
  j1 <> j2 -> blocks !! j1 = Some block1 -> blocks !! j2 = Some block2 ->
  block1 str EM_Unknown = EM_Unknown \/ block2 str EM_Unknown = EM_Unknown.
Proof.
  intros Hne H1 H2.
  destruct (EM_eqb (block1 str EM_Unknown) EM_Unknown) eqn:E1;
    [left; by apply EM_eqb_eq|].
  destruct (EM_eqb (block2 str EM_Unknown) EM_Unknown) eqn:E2;
    [right; by apply EM_eqb_eq|].
  exfalso.
  assert (block1 str EM_Unknown <> EM_Unknown) as Ha
    by (intros Heq; by rewrite Heq in E1).
  assert (block2 str EM_Unknown <> EM_Unknown) as Hb
    by (intros Heq; by rewrite Heq in E2).
  clear E1 E2. unfold blocks in H1, H2.
  do 5 (destruct j1 as [|j1];
        [injection H1 as <-;
         do 5 (destruct j2 as [|j2];
               [injection H2 as <-; first [done | not_in_both Ha Hb]|]);
         done|]).
  done.
Qed.

Lemma blocks_commute (str : string) j1 block1 j2 block2 value :
  j1 <> j2 -> blocks !! j1 = Some block1 -> blocks !! j2 = Some block2 ->
  block1 str (block2 str value) = block2 str (block1 str value).
Proof.
  intros Hne H1 H2.
  pose proof (blocks_lookup_guarded _ _ H1) as G1.
  pose proof (blocks_lookup_guarded _ _ H2) as G2.
  rewrite (G2 str value), (G1 str value).
  destruct (EM_eqb value EM_Unknown) eqn:E; [|by rewrite G1, G2, E].
  rewrite (G1 str (block2 str EM_Unknown)), (G2 str (block1 str EM_Unknown)).
  destruct (blocks_exclusive str j1 block1 j2 block2 Hne H1 H2) as [Hx|Hx];
    rewrite Hx; cbn [EM_eqb to_int Nat.eqb].
  - destruct (EM_eqb (block2 str EM_Unknown) EM_Unknown) eqn:E2; [|done].
    by apply EM_eqb_eq in E2.
  - destruct (EM_eqb (block1 str EM_Unknown) EM_Unknown) eqn:E1; [|done].
    by apply EM_eqb_eq in E1.
Qed.

(** X1.  A lookup that succeeds on anything but the literal [Unknown]
    returns a selectable value. *)
Theorem FromString_success_selectable (str : string) (value : EnergyMeasure) :
  FromString str = (value, true) -> str <> "Unknown" ->
  selectable value = true.
Proof. apply FromString_selectable. Qed.

Lemma FromString_success_selectable_witness : selectable EM_LNCC = true.
Proof.
  apply (FromString_success_selectable "NCC" EM_LNCC).
  - reflexivity.
  - discriminate.
Defined.

(** X2.  A successful lookup returns the value an alias block assigned, or
    else a value whose canonical name is the input. *)
Theorem FromString_sound (str : string) (value : EnergyMeasure) :
  FromString str = (value, true) ->
  (alias_names str = value /\ value <> EM_Unknown) \/
  (alias_names str = EM_Unknown /\ ToString value = str).
Proof.
  rewrite FromString_phases.
  destruct (EM_eqb (alias_names str) EM_Unknown) eqn:E; intros H.
  - right. split; [by apply EM_eqb_eq|].
    pose proof (f_equal fst H) as Hv. pose proof (f_equal snd H) as Hflag.
    cbn [fst snd] in Hv, Hflag. subst value.
    destruct (scan_found 47 str) as [Hs|Hs]; [|done].
    by rewrite Hs in Hflag.
  - left. pose proof (f_equal fst H) as Hv. cbn [fst] in Hv. subst value.
    split; [done|]. intros Heq. by rewrite Heq in E.
Qed.

Lemma FromString_sound_witness :
  (alias_names "SSD" = EM_SSD /\ EM_SSD <> EM_Unknown) \/
  (alias_names "SSD" = EM_Unknown /\ ToString EM_SSD = "SSD").
Proof. apply (FromString_sound "SSD" EM_SSD). reflexivity. Defined.

(** X3.  The lookup fails exactly on the strings that no alias block
    compares with and that no enumerator between [EM_Unknown] and
    [EM_Last] is formatted as. *)
Theorem FromString_fails_iff (str : string) :
  FromString str = (EM_Unknown, false) <->
  alias_names str = EM_Unknown /\
  forall e, e <> EM_Unknown -> e <> EM_Last -> ToString e <> str.
Proof.
  rewrite FromString_phases. split.
  - destruct (EM_eqb (alias_names str) EM_Unknown) eqn:E; [|done].
    intros H. pose proof (f_equal fst H) as Hv. cbn [fst] in Hv.
    split; [by apply EM_eqb_eq|].
    intros e He1 He2. rewrite <- (static_cast_to_int e).
    apply (scan_skips 47); [lia|]. rewrite Hv.
    destruct e; cbn; try lia; done.
  - intros [Ha Hnone]. rewrite Ha. cbn [EM_eqb to_int Nat.eqb].
    destruct (scan_found 47 str) as [Hs|Hs]; [by rewrite Hs|].
    destruct (EM_eqb (scan 47 str) EM_Unknown) eqn:E.
    + apply EM_eqb_eq in E. by rewrite E.
    + exfalso. apply (Hnone (scan 47 str)); [| |done].
      * intros Heq. by rewrite Heq in E.
      * intros Heq. pose proof (scan_bound 47 str ltac:(lia)) as Hb.
        rewrite Heq in Hb. cbn in Hb. lia.
Qed.

(** X4.  The value returned is never [EM_Last], and the flag is false
    exactly when the value is [EM_Unknown]. *)
Theorem FromString_value_flag (str : string) :
  (FromString str).1 <> EM_Last /\
  ((FromString str).2 = false <-> (FromString str).1 = EM_Unknown).
Proof.
  split.
  - rewrite FromString_phases.
    destruct (EM_eqb (alias_names str) EM_Unknown) eqn:E; cbn [fst].
    + intros Heq. pose proof (scan_bound 47 str ltac:(lia)) as Hb.
      rewrite Heq in Hb. cbn in Hb. lia.
    + intros Heq.
      destruct (alias_names_selectable str) as [Ha|Ha]; by rewrite Heq in Ha.
  - unfold FromString. cbn [fst snd].
    rewrite negb_false_iff. apply EM_eqb_eq.
Qed.

(** X5.  Without an alias, the value returned is the highest one below
    [EM_Last] whose canonical name is the input: no enumerator above it
    has that name. *)
Theorem FromString_highest_match (str : string) (e : EnergyMeasure) :
  alias_names str = EM_Unknown ->
  to_int (FromString str).1 < to_int e < to_int EM_Last ->
  ToString e <> str.
Proof.
  intros Ha. rewrite FromString_phases, Ha. cbn [EM_eqb to_int Nat.eqb fst].
  intros Hlt. rewrite <- (static_cast_to_int e).
  apply (scan_skips 47); lia.
Qed.

Lemma FromString_highest_match_witness : ToString EM_MinDetJac <> "L2".
Proof.
  apply (FromString_highest_match "L2" EM_MinDetJac).
  - reflexivity.
  - vm_compute. lia.
Defined.

(** X6.  The enumerators formatted as [Unknown] are exactly those that are
    not selectable. *)
Theorem ToString_Unknown_iff (e : EnergyMeasure) :
  ToString e = "Unknown" <-> selectable e = false.
Proof. split; [by destruct e|apply not_selectable_Unknown]. Qed.

(** X7.  The order of the alias blocks does not matter: run in any order,
    they leave the value [FromString] computes with the source order. *)
Theorem alias_order_irrelevant (str : string)
    (bs : list (string -> EnergyMeasure -> EnergyMeasure)) :
  bs ≡ₚ blocks -> run_blocks bs str = alias_names str.
Proof.
  intros Hperm. change (alias_names str) with (run_blocks blocks str).
  symmetry. unfold run_blocks.
  apply (foldr_permutation (=) (fun block value => block str value)
           EM_Unknown blocks bs); [|done].
  intros j1 a1 j2 a2 b Hne H1 H2. by eapply blocks_commute.
Qed.

Lemma alias_order_irrelevant_witness :
  run_blocks [sim_names; pdm_names; eft_names; ift_names; cm_names] "JAC"
  = alias_names "JAC".
Proof.
  apply (alias_order_irrelevant "JAC"
           [sim_names; pdm_names; eft_names; ift_names; cm_names]).
  change (reverse blocks ≡ₚ blocks). apply reverse_Permutation.
Defined.

End EnergyMeasureLookup.

(* ===================================================================== *)
(** * More on parameter lists: lookups, frames, invariants, merges         *)
(* ===================================================================== *)

Section ParameterListAlgebra.
Import MirtkString Object Reference.

Implicit Types (params other L : ParameterList) (name n k : string).

Lemma Find_cons it L n :
  Find (it :: L) n = if String.eqb it.1 n then 0 else S (Find L n).
Proof. reflexivity. Qed.

Lemma Get_cons it L k :
  Get (it :: L) k = if String.eqb it.1 k then it.2 else Get L k.
Proof.
  unfold Get. cbn [Find length]. destruct (String.eqb it.1 k); [done|].
  cbn. by destruct (Find L k =? length L).
Qed.

Lemma Remove_cons it L n :
  Remove (it :: L) n = if String.eqb it.1 n then L else it :: Remove L n.
Proof.
  unfold Remove. cbn [Find length]. destruct (String.eqb it.1 n); [done|].
  cbn. by destruct (Find L n =? length L).
Qed.

Lemma Insert_string_cons it L n v :
  Insert_string (it :: L) n v =
    if String.eqb it.1 n then (it.1, v) :: L else it :: Insert_string L n v.
Proof.
  unfold Insert_string. cbn [Find length].
  destruct (String.eqb it.1 n); [done|].
  cbn. by destruct (Find L n =? length L).
Qed.

(** What [Insert] leaves at each position. *)
Lemma lookup_Insert_string L n v j :
  Insert_string L n v !! j =
    if decide (j = Find L n) then Some (n, v) else L !! j.
Proof.
  pose proof (Find_le L n).
  destruct (decide (Find L n = length L)) as [Hn|Hn].
  - rewrite Insert_string_absent by done. rewrite Hn.
    destruct (decide (j = length L)) as [->|Hj].
    + by rewrite lookup_app_r, Nat.sub_diag.
    + destruct (decide (j < length L)).
      * by rewrite lookup_app_l.
      * rewrite lookup_ge_None_2 by (rewrite length_app; cbn; lia).
        symmetry. apply lookup_ge_None_2. lia.
  - destruct (Find_lookup L n) as [v0 Hv0]; [lia|].
    rewrite Insert_string_present by lia.
    rewrite (alter_set_second L n v v0) by done.
    destruct (decide (j = Find L n)) as [->|Hj].
    + apply list_lookup_insert_eq. lia.
    + by apply list_lookup_insert_ne.
Qed.

Lemma Insert_string_names_present L n v :
  Find L n < length L -> (Insert_string L n v).*1 = L.*1.
Proof.
  intros H. rewrite Insert_string_present by done. apply set_second_names.
Qed.

(** In a list, an entry at the position [Find] gives for its name. *)
Lemma Get_Find_lookup L n :
  Find L n < length L -> L !! Find L n = Some (n, Get L n).
Proof.
  intros H. destruct (Find_lookup L n H) as [v Hv].
  by rewrite (Get_lookup L n v Hv).
Qed.

(** X8.  [Contains] decides whether some entry has the name, and [Find]
    returns the end of the list exactly when none has. *)
Theorem Contains_decides_membership L n :
  (Contains L n = true <-> n ∈ L.*1) /\
  (Find L n = length L <-> n ∉ L.*1) /\
  Find L n <= length L.
Proof.
  split; [apply Contains_elem_of|]. split; [apply Find_end|apply Find_le].
Qed.

(** X9.  [Get] returns the empty string for an absent name and for a name
    whose first entry holds the empty string, and in no other case. *)
Theorem Get_empty_iff L n :
  Get L n = "" <->
  Contains L n = false \/ L !! Find L n = Some (n, "").
Proof.
  destruct (Contains L n) eqn:E.
  - apply Contains_true in E. pose proof (Get_Find_lookup L n E) as H.
    split.
    + intros Hg. right. by rewrite H, Hg.
    + intros [?|Hl]; [done|]. rewrite H in Hl. by injection Hl.
  - apply Contains_false in E. split; [by left|]. intros _.
    by apply Get_absent.
Qed.

(** X10.  [Insert] under one name does not change what [Contains] and [Get]
    return for another name. *)
Theorem Insert_other_name {T : Type} (ToString : T -> string) L n (v : T) k :
  n <> k ->
  Contains (Insert ToString L n v) k = Contains L k /\
  Get (Insert ToString L n v) k = Get L k.
Proof.
  intros Hne. rewrite Insert_as_string. split.
  - rewrite Contains_Insert_string.
    apply String.eqb_neq in Hne. by rewrite Hne.
  - by apply Get_Insert_string_ne.
Qed.

Lemma Insert_other_name_witness :
  Get (Insert ToString_default [("a", "1"); ("b", "2")] "a" "3") "b"
  = Get [("a", "1"); ("b", "2")] "b".
Proof.
  apply (Insert_other_name ToString_default [("a", "1"); ("b", "2")]
           "a" "3" "b").
  discriminate.
Defined.

Lemma Insert_string_twice L n v1 v2 :
  Insert_string (Insert_string L n v1) n v2 = Insert_string L n v2.
Proof.
  induction L as [|it L IH].
  - unfold Insert_string. cbn. by rewrite String.eqb_refl.
  - rewrite !(Insert_string_cons it L).
    destruct (String.eqb it.1 n) eqn:E.
    + rewrite Insert_string_cons. cbn [fst]. by rewrite E.
    + rewrite Insert_string_cons, E. by rewrite IH.
Qed.

(** X11.  Of two [Insert]s under the same name the second one wins: the
    result is that of the second alone, whatever the value types. *)
Theorem Insert_Insert_same {T1 T2 : Type} (ToString1 : T1 -> string)
    (ToString2 : T2 -> string) L n (v1 : T1) (v2 : T2) :
  Insert ToString2 (Insert ToString1 L n v1) n v2 = Insert ToString2 L n v2.
Proof. rewrite !Insert_as_string. apply Insert_string_twice. Qed.

(** X12.  [Remove] undoes the [Insert] of a name that was absent. *)
Theorem Remove_Insert_absent L n v :
  Contains L n = false -> Remove (Insert_string L n v) n = L.
Proof.
  intros Habs%Contains_false%Find_end.
  induction L as [|it L IH].
  - unfold Insert_string, Remove. cbn. by rewrite String.eqb_refl.
  - cbn in Habs. apply not_elem_of_cons in Habs as [Hne Hrest].
    rewrite Insert_string_cons.
    assert (String.eqb it.1 n = false) as E by (apply String.eqb_neq; eauto).
    rewrite E, Remove_cons, E. by rewrite IH.
Qed.

Lemma Remove_Insert_absent_witness :
  Remove (Insert_string [("a", "1")] "b" "2") "b" = [("a", "1")].
Proof. apply (Remove_Insert_absent [("a", "1")] "b" "2"). reflexivity. Defined.

(** X13.  [Remove] under one name does not change what [Contains] and
    [Get] return for another name. *)
Theorem Remove_other_name L n k :
  n <> k ->
  Contains (Remove L n) k = Contains L k /\
  Get (Remove L n) k = Get L k.
Proof.
  intros Hne. induction L as [|it L [IH1 IH2]]; [done|].
  rewrite Remove_cons. destruct (String.eqb_spec it.1 n) as [Heq|Hnn].
  - assert (String.eqb it.1 k = false) as E
      by (apply String.eqb_neq; congruence).
    by rewrite Contains_cons, Get_cons, E.
  - by rewrite !Contains_cons, !Get_cons, IH1, IH2.
Qed.

Lemma Remove_other_name_witness :
  Get (Remove [("a", "1"); ("b", "2")] "a") "b"
  = Get [("a", "1"); ("b", "2")] "b".
Proof.
  apply (Remove_other_name [("a", "1"); ("b", "2")] "a" "b"). discriminate.
Defined.

(** ** Lists without two entries of one name *)

Lemma Insert_string_names L n v :
  (Insert_string L n v).*1 =
    if decide (Find L n = length L) then L.*1 ++ [n] else L.*1.
Proof.
  pose proof (Find_le L n). case_decide as Hn.
  - rewrite Insert_string_absent by done. by rewrite fmap_app.
  - apply Insert_string_names_present. lia.
Qed.

Lemma Insert_string_NoDup L n v :
  NoDup L.*1 -> NoDup (Insert_string L n v).*1.
Proof.
  intros Hnd. rewrite Insert_string_names. case_decide as Hn; [|done].
  apply NoDup_app. split; [done|]. split; [|apply NoDup_singleton].
  intros k Hk ->%list_elem_of_singleton. by apply Find_end in Hn.
Qed.

Lemma Remove_names_subset L n k : k ∈ (Remove L n).*1 -> k ∈ L.*1.
Proof.
  induction L as [|it L IH]; [done|].
  rewrite Remove_cons. destruct (String.eqb it.1 n); cbn.
  - apply list_elem_of_further.
  - rewrite !elem_of_cons. intros [?|?]; auto.
Qed.

Lemma Remove_NoDup L n : NoDup L.*1 -> NoDup (Remove L n).*1.
Proof.
  induction L as [|it L IH]; [done|]. cbn.
  intros [Hit Hnd]%NoDup_cons. rewrite Remove_cons.
  destruct (String.eqb it.1 n); [done|]. cbn.
  apply NoDup_cons. split; [|by apply IH].
  intros Hin%Remove_names_subset. done.
Qed.

Lemma Insert_verbatim_NoDup params other :
  NoDup params.*1 -> NoDup (Insert_verbatim params other).*1.
Proof.
  revert params. induction other as [|it rest IH]; intros params Hnd; [done|].
  cbn [Insert_verbatim]. by apply IH, Insert_string_NoDup.
Qed.

Lemma Insert_prefixed_NoDup params other prefix res :
  NoDup params.*1 -> Insert_prefixed params other prefix = Some res ->
  NoDup res.*1.
Proof.
  revert params. induction other as [|it rest IH]; intros params Hnd; cbn.
  - by intros [= <-].
  - destruct (lower_first it.1) as [name|]; [|done]. cbn.
    by apply IH, Insert_string_NoDup.
Qed.

Lemma Remove_NoDup_gone L n : NoDup L.*1 -> Contains (Remove L n) n = false.
Proof.
  induction L as [|it L IH]; [done|]. cbn.
  intros [Hit Hnd]%NoDup_cons. rewrite Remove_cons.
  destruct (String.eqb_spec it.1 n) as [Heq|Hne].
  - apply not_true_iff_false. rewrite Contains_elem_of. congruence.
  - rewrite Contains_cons, IH by done.
    apply String.eqb_neq in Hne. by rewrite Hne.
Qed.

Lemma Get_NoDup L n v : NoDup L.*1 -> (n, v) ∈ L -> Get L n = v.
Proof.
  induction L as [|it L IH]; [by intros _ ?%elem_of_nil|]. cbn.
  intros [Hit Hnd]%NoDup_cons Hin. rewrite Get_cons.
  apply elem_of_cons in Hin as [<-|Hin]; cbn.
  - by rewrite String.eqb_refl.
  - destruct (String.eqb_spec it.1 n) as [Heq|Hne]; [|by apply IH].
    exfalso. apply Hit. rewrite Heq.
    apply list_elem_of_fmap. by exists (n, v).
Qed.

(** X14.  A list in which no two entries have the same name stays so under
    [Insert] and [Remove]. *)
Theorem unique_names_kept {T : Type} (ToString : T -> string) L n (v : T) :
  NoDup L.*1 ->
  NoDup (Insert ToString L n v).*1 /\ NoDup (Remove L n).*1.
Proof.
  intros Hnd. rewrite Insert_as_string.
  split; [by apply Insert_string_NoDup|by apply Remove_NoDup].
Qed.

Lemma unique_names_kept_witness :
  NoDup (Insert ToString_default [("a", "1"); ("b", "2")] "a" "3").*1 /\
  NoDup (Remove [("a", "1"); ("b", "2")] "a").*1.
Proof.
  apply (unique_names_kept ToString_default [("a", "1"); ("b", "2")] "a" "3").
  apply (bool_decide_unpack _). by vm_compute.
Defined.

(** X15.  Merging any source list, with or without a prefix, into a target
    without two entries of one name gives a list, and one without two
    entries of one name, even when the source has such entries or entries
    with an empty name. *)
Theorem unique_names_merged params other prefix :
  NoDup params.*1 ->
  NoDup (Insert_verbatim params other).*1 /\
  (exists res, Insert_list params other None = Some res /\ NoDup res.*1) /\
  (exists res,
      Insert_list params other (Some prefix) = Some res /\ NoDup res.*1).
Proof.
  intros Hnd. split; [by apply Insert_verbatim_NoDup|]. split.
  - eexists. split; [done|]. by apply Insert_verbatim_NoDup.
  - eexists. split; [apply Insert_prefixed_total|].
    by apply Insert_verbatim_NoDup.
Qed.

Lemma unique_names_merged_witness :
  NoDup (Insert_verbatim [("a", "1")] [("b", "2"); ("b", "3"); ("a", "4")]).*1
  /\
  exists res,
    Insert_list [("Inner ", "1")]
      [("Radius", "2"); ("", "3"); ("radius", "4"); ("", "5")]
      (Some "Inner") = Some res /\
    NoDup res.*1.
Proof.
  split.
  - destruct (unique_names_merged [("a", "1")]
                [("b", "2"); ("b", "3"); ("a", "4")] "") as [H _].
    + apply (bool_decide_unpack _). by vm_compute.
    + exact H.
  - destruct (unique_names_merged [("Inner ", "1")]
                [("Radius", "2"); ("", "3"); ("radius", "4"); ("", "5")]
                "Inner") as (_ & _ & H).
    + apply (bool_decide_unpack _). by vm_compute.
    + exact H.
Defined.

(** X16.  In a list without two entries of one name, [Remove] leaves no
    entry of the name: [Contains] is false and [Get] returns the empty
    string afterwards. *)
Theorem Remove_then_absent L n :
  NoDup L.*1 ->
  Contains (Remove L n) n = false /\ Get (Remove L n) n = "".
Proof.
  intros Hnd. pose proof (Remove_NoDup_gone L n Hnd) as H.
  split; [done|]. by apply Get_absent, Contains_false.
Qed.

Lemma Remove_then_absent_witness :
  Contains (Remove [("a", "1"); ("b", "2")] "b") "b" = false /\
  Get (Remove [("a", "1"); ("b", "2")] "b") "b" = "".
Proof.
  apply (Remove_then_absent [("a", "1"); ("b", "2")] "b").
  apply (bool_decide_unpack _). by vm_compute.
Defined.

(** ** Merges *)

Lemma Contains_reverse L k : Contains (reverse L) k = Contains L k.
Proof.
  apply eq_true_iff_eq. rewrite !Contains_elem_of, fmap_reverse.
  apply elem_of_reverse.
Qed.

Lemma Contains_of_elem L it : it ∈ L -> Contains L it.1 = true.
Proof. intros H. apply Contains_elem_of. by apply list_elem_of_fmap_2. Qed.

Lemma Insert_verbatim_length params other :
  length params <= length (Insert_verbatim params other)
                <= length params + length other.
Proof.
  revert params. induction other as [|it rest IH]; intros params; cbn.
  - lia.
  - specialize (IH (Insert_string params it.1 it.2)).
    rewrite length_Insert_string in IH. case_decide; lia.
Qed.

Lemma Insert_verbatim_known_names params other :
  (forall it, it ∈ other -> Contains params it.1 = true) ->
  (Insert_verbatim params other).*1 = params.*1.
Proof.
  revert params. induction other as [|it rest IH]; intros params Hall; [done|].
  cbn [Insert_verbatim]. rewrite IH.
  - apply Insert_string_names_present, Contains_true, Hall.
    apply list_elem_of_here.
  - intros it' Hin. rewrite Contains_Insert_string.
    rewrite (Hall it') by (by apply list_elem_of_further).
    apply orb_true_r.
Qed.

Lemma Insert_verbatim_fresh params other :
  NoDup other.*1 -> (forall k, k ∈ other.*1 -> k ∉ params.*1) ->
  Insert_verbatim params other = params ++ other.
Proof.
  revert params.
  induction other as [|[n v] rest IH]; intros params Hnd Hfresh; cbn.
  - by rewrite app_nil_r.
  - cbn in Hnd. apply NoDup_cons in Hnd as [Hn Hnd].
    rewrite Insert_string_absent.
    + rewrite IH; [by rewrite <- app_assoc|done|].
      intros k Hk. rewrite fmap_app. cbn.
      intros [Hin|Hin%list_elem_of_singleton]%elem_of_app.
      * apply (Hfresh k); [by apply list_elem_of_further|done].
      * congruence.
    + apply Find_end, Hfresh. apply list_elem_of_here.
Qed.

(** What a merge of known names leaves at each position: the first entry
    of a name of the source gets the last value the source has for it. *)
Lemma lookup_Insert_verbatim_known params other j :
  (forall it, it ∈ other -> Contains params it.1 = true) ->
  Insert_verbatim params other !! j =
    match params !! j with
    | Some it =>
        if bool_decide (j = Find params it.1) && Contains other it.1
        then Some (it.1, Get (reverse other) it.1)
        else Some it
    | None => None
    end.
Proof.
  revert params.
  induction other as [|a rest IH]; intros params Hall.
  - cbn. destruct (params !! j) as [it|]; [|done].
    change (Contains [] it.1) with false. by rewrite andb_false_r.
  - cbn [Insert_verbatim].
    assert (Find params a.1 < length params) as Ha
      by (apply Contains_true, Hall, list_elem_of_here).
    rewrite IH.
    2:{ intros it' Hin. rewrite Contains_Insert_string.
        rewrite (Hall it') by (by apply list_elem_of_further).
        apply orb_true_r. }
    assert (forall k, Find (Insert_string params a.1 a.2) k = Find params k)
      as HF by (intros k; by apply Find_names, Insert_string_names_present).
    rewrite lookup_Insert_string.
    destruct (Find_lookup params a.1 Ha) as [w Hw].
    destruct (decide (j = Find params a.1)) as [->|Hj].
    + rewrite Hw. cbn [fst]. rewrite HF, bool_decide_true by done.
      rewrite Contains_cons, String.eqb_refl. cbn [andb orb].
      rewrite reverse_cons, Get_app_one, Contains_reverse, String.eqb_refl.
      by destruct (Contains rest a.1).
    + destruct (params !! j) as [[k w']|] eqn:Hk; [|done]. cbn [fst].
      rewrite HF. case_bool_decide as Hjk; [|done]. cbn [andb].
      assert (String.eqb a.1 k = false) as Hak.
      { apply String.eqb_neq. intros Heq. apply Hj. by rewrite Heq. }
      rewrite Contains_cons, Hak. cbn [orb].
      rewrite reverse_cons, Get_app_one, Contains_reverse.
      by destruct (Contains rest k).
Qed.

Lemma Insert_verbatim_twice params other :
  Insert_verbatim (Insert_verbatim params other) other
  = Insert_verbatim params other.
Proof.
  assert (forall it, it ∈ other ->
                     Contains (Insert_verbatim params other) it.1 = true)
    as Hall.
  { intros it Hin. rewrite Contains_Insert_verbatim.
    rewrite (Contains_of_elem other it Hin). apply orb_true_r. }
  apply list_eq. intros j. rewrite lookup_Insert_verbatim_known by done.
  destruct (Insert_verbatim params other !! j) as [[k w]|] eqn:Hj; [|done].
  cbn [fst]. case_bool_decide as Hjk; [|done]. cbn [andb].
  destruct (Contains other k) eqn:Hk; [|done].
  assert (Find (Insert_verbatim params other) k
          < length (Insert_verbatim params other)) as Hlt.
  { rewrite <- Hjk. by eapply lookup_lt_Some. }
  pose proof (Get_Find_lookup _ _ Hlt) as Hg.
  rewrite <- Hjk, Hj in Hg. injection Hg as ->.
  by rewrite Get_Insert_verbatim, Hk.
Qed.

(** X17.  A merge never shortens the target and adds at most one entry for
    each source entry; when every source name is already in the target,
    its names and their order stay as they are. *)
Theorem merge_length_and_names params other :
  length params <= length (Insert_verbatim params other)
                <= length params + length other /\
  ((forall it, it ∈ other -> Contains params it.1 = true) ->
   (Insert_verbatim params other).*1 = params.*1).
Proof.
  split; [apply Insert_verbatim_length|apply Insert_verbatim_known_names].
Qed.

Lemma merge_length_and_names_witness :
  (Insert_verbatim [("a", "1"); ("b", "2")] [("b", "3")]).*1
  = [("a", "1"); ("b", "2")].*1.
Proof.
  apply (merge_length_and_names [("a", "1"); ("b", "2")] [("b", "3")]).
  intros it ->%list_elem_of_singleton. reflexivity.
Defined.

(** X18.  Merging a source without two entries of one name, none of whose
    names is in the target, appends the source to the target; merged into
    the empty list, such a source is returned as it is. *)
Theorem merge_fresh_names params other :
  NoDup other.*1 ->
  ((forall k, k ∈ other.*1 -> k ∉ params.*1) ->
   Insert_list params other None = Some (params ++ other)) /\
  Insert_list [] other None = Some other.
Proof.
  intros Hnd. cbn [Insert_list]. split.
  - intros Hfresh. by rewrite Insert_verbatim_fresh.
  - rewrite Insert_verbatim_fresh; [done..|].
    intros k _. apply not_elem_of_nil.
Qed.

Lemma merge_fresh_names_witness :
  Insert_list [] [("a", "1"); ("b", "2")] None
  = Some [("a", "1"); ("b", "2")].
Proof.
  apply (merge_fresh_names [] [("a", "1"); ("b", "2")]).
  apply (bool_decide_unpack _). by vm_compute.
Defined.

(** X19.  Merging the same source twice gives what merging it once gives,
    with and without a prefix. *)
Theorem merge_idempotent params other :
  Insert_verbatim (Insert_verbatim params other) other
    = Insert_verbatim params other /\
  (forall prefix res,
      Insert_list params other (Some prefix) = Some res ->
      Insert_list res other (Some prefix) = Some res).
Proof.
  split; [apply Insert_verbatim_twice|].
  intros prefix res. cbn [Insert_list]. intros Hres.
  rewrite Insert_prefixed_total in Hres. injection Hres as <-.
  rewrite Insert_prefixed_total. by rewrite Insert_verbatim_twice.
Qed.

Lemma merge_idempotent_witness :
  Insert_list [("Inner radius", "3")] [("Radius", "3")] (Some "Inner")
  = Some [("Inner radius", "3")].
Proof.
  apply (proj2 (merge_idempotent [] [("Radius", "3")]) "Inner").
  reflexivity.
Defined.

Lemma merged_name_inj prefix : Inj (=) (=) (fun name => prefix +:+ " " +:+ name).
Proof.
  intros x y H. by apply (inj (String.app " ")), (inj (String.app prefix)).
Qed.

Lemma merged_entry_names prefix other :
  (merged_entry prefix <$> other).*1
  = (fun name => prefix +:+ " " +:+ name)
      <$> (lowercased_first_letter <$> other.*1).
Proof.
  induction other as [|it rest IH]; [done|]. cbn. by rewrite IH.
Qed.

Lemma Insert_verbatim_read_back params other n v :
  NoDup other.*1 -> (n, v) ∈ other ->
  Contains (Insert_verbatim params other) n = true /\
  Get (Insert_verbatim params other) n = v.
Proof.
  intros Hnd Hin.
  pose proof (Contains_of_elem other (n, v) Hin) as Hc. cbn in Hc.
  split.
  - rewrite Contains_Insert_verbatim, Hc. apply orb_true_r.
  - rewrite Get_Insert_verbatim, Hc. apply Get_NoDup.
    + by rewrite fmap_reverse, reverse_Permutation.
    + by apply elem_of_reverse.
Qed.

(** X20.  What a merge stores can be read back: from a source without two
    entries of one name every entry is found under its name, and under a
    prefix under its merged name, provided the names stay different once
    their first letter is in lower case. *)
Theorem merge_read_back params other prefix n v :
  (n, v) ∈ other ->
  (NoDup other.*1 ->
   Contains (Insert_verbatim params other) n = true /\
   Get (Insert_verbatim params other) n = v) /\
  (Forall (fun it => it.1 <> "") other ->
   NoDup (lowercased_first_letter <$> other.*1) ->
   exists res,
     Insert_list params other (Some prefix) = Some res /\
     Contains res (merged_name prefix n) = true /\
     Get res (merged_name prefix n) = v).
Proof.
  intros Hin. split.
  - intros Hnd. by apply Insert_verbatim_read_back.
  - intros Hall Hnd. eexists. split.
    + cbn [Insert_list]. by apply Insert_prefixed_Some.
    + apply Insert_verbatim_read_back.
      * rewrite merged_entry_names.
        pose proof (merged_name_inj prefix). by apply NoDup_fmap_2.
      * by apply (list_elem_of_fmap_2 (merged_entry prefix) other (n, v)).
Qed.

Lemma merge_read_back_witness :
  Get (Insert_verbatim [("a", "0")] [("a", "1"); ("b", "2")]) "a" = "1" /\
  exists res,
    Insert_list [("Inner radius", "0")]
      [("Radius", "3"); ("Center", "0 0")] (Some "Inner") = Some res /\
    Contains res (merged_name "Inner" "Radius") = true /\
    Get res (merged_name "Inner" "Radius") = "3".
Proof.
  split.
  - apply (proj1 (merge_read_back [("a", "0")] [("a", "1"); ("b", "2")]
                    "" "a" "1" ltac:(apply list_elem_of_here))).
    apply (bool_decide_unpack _). by vm_compute.
  - apply (proj2 (merge_read_back [("Inner radius", "0")]
                    [("Radius", "3"); ("Center", "0 0")]
                    "Inner" "Radius" "3" ltac:(apply list_elem_of_here))).
    + repeat (constructor; [discriminate|]). constructor.
    + apply (bool_decide_unpack _). by vm_compute.
Defined.

(** X21.  Under a prefix, two names that differ only in the case of their
    first letter are merged into one entry, which holds the value of the
    later one. *)
Theorem merge_first_letter_case params prefix n1 v1 n2 v2 :
  n1 <> "" -> n2 <> "" ->
  lowercased_first_letter n1 = lowercased_first_letter n2 ->
  Insert_list params [(n1, v1); (n2, v2)] (Some prefix)
  = Insert_list params [(n2, v2)] (Some prefix).
Proof.
  intros H1 H2 Heq. cbn [Insert_list].
  rewrite !Insert_prefixed_Some by (repeat constructor; done).
  cbn. unfold merged_name. rewrite Heq. by rewrite Insert_string_twice.
Qed.

Lemma merge_first_letter_case_witness :
  Insert_list [] [("Radius", "3"); ("radius", "4")] (Some "Inner")
  = Insert_list [] [("radius", "4")] (Some "Inner").
Proof.
  apply (merge_first_letter_case [] "Inner" "Radius" "3" "radius" "4").
  - discriminate.
  - discriminate.
  - reflexivity.
Defined.

(** ** Applying parameter lists *)

(** X22.  Applying the concatenation of two lists is applying the first
    and then the second. *)
Theorem Parameter_set_sequence {Self : Type} (cls : Class Self) this
    param1 param2 :
  Parameter_set cls this (param1 ++ param2)
  = Parameter_set cls (Parameter_set cls this param1) param2.
Proof. apply Parameter_set_app. Qed.

(** X23.  What [Set] returns has no effect on [Parameter (list)]: two
    classes whose [Set] change the object alike give the same object,
    whatever their [Set] report. *)
Theorem Parameter_set_ignores_flag {Self : Type} (cls1 cls2 : Class Self)
    this param :
  (forall this name value,
      (Set_ cls1 this name value).1 = (Set_ cls2 this name value).1) ->
  Parameter_set cls1 this param = Parameter_set cls2 this param.
Proof.
  intros Hsame. revert this.
  induction param as [|it rest IH]; intros this; [done|].
  cbn. by rewrite Hsame, IH.
Qed.

Lemma Parameter_set_ignores_flag_witness :
  Parameter_set Sphere "1" [("Colour", "red"); ("Radius", "3")]
  = Parameter_set
      {| NameOfClass := NameOfClass Sphere;
         Set_ := fun this name value => ((Set_ Sphere this name value).1, true);
         Parameter_get := Parameter_get Sphere |}
      "1" [("Colour", "red"); ("Radius", "3")].
Proof.
  apply (Parameter_set_ignores_flag Sphere
           {| NameOfClass := NameOfClass Sphere;
              Set_ := fun this name value =>
                        ((Set_ Sphere this name value).1, true);
              Parameter_get := Parameter_get Sphere |}).
  intros this name value. reflexivity.
Defined.

(** ** The first letter *)

Lemma tolower_idemp (c : ascii) : tolower (tolower c) = tolower c.
Proof. by destruct c as [[] [] [] [] [] [] [] []]. Qed.

Lemma tolower_not_upper (c : ascii) :
  ~ 65 <= nat_of_ascii (tolower c) <= 90.
Proof.
  destruct c as [[] [] [] [] [] [] [] []]; vm_compute; lia.
Qed.

(** X24.  Lowering the first letter keeps the length of the name, leaves
    no upper case letter [A]..[Z] in front, and changes nothing when done
    again. *)
Theorem lower_first_again name name' :
  lower_first name = Some name' ->
  String.length name' = String.length name /\
  (forall c rest, name' = String c rest -> ~ 65 <= nat_of_ascii c <= 90) /\
  lower_first name' = Some name'.
Proof.
  destruct name as [|c0 rest0].
  { rewrite lower_first_empty. intros [= <-]. by repeat split. }
  rewrite lower_first_cons.
  intros [= <-]. split; [done|]. split.
  - intros c rest [= <- _]. apply tolower_not_upper.
  - by rewrite lower_first_cons, tolower_idemp.
Qed.

Lemma lower_first_again_witness : lower_first "radius" = Some "radius".
Proof. apply (lower_first_again "Radius" "radius"). reflexivity. Defined.

End ParameterListAlgebra.

(* ===================================================================== *)
(** * Ownership of components                                              *)
(* ===================================================================== *)

Section Ownership.
Import Attributes.

Implicit Types (h : heap) (member arg : pointer) (a : address).

(** X26.  Setting a component to the object it already is destroys that
    object and keeps the pointer to it: the member dangles, and the next
    call of the setter deletes the object a second time. *)
Theorem set_component_same_object h a :
  a ∈ h ->
  set_component h (Some a) (Some a) = Some (h ∖ {[a]}, Some a) /\
  ~ valid (h ∖ {[a]}) (Some a) /\
  (forall arg, set_component (h ∖ {[a]}) (Some a) arg = None).
Proof.
  intros Ha. unfold set_component. cbn. rewrite decide_True by done.
  split; [done|]. split; [cbn; set_solver|].
  intros arg. rewrite decide_False by set_solver. done.
Qed.

Lemma set_component_same_object_witness :
  set_component {[1%positive]} (Some 1%positive) (Some 1%positive)
  = Some ({[1%positive]} ∖ {[1%positive]}, Some 1%positive) /\
  ~ valid ({[1%positive]} ∖ {[1%positive]}) (Some 1%positive) /\
  (forall arg,
      set_component ({[1%positive]} ∖ {[1%positive]}) (Some 1%positive) arg
      = None).
Proof.
  apply (set_component_same_object {[1%positive]} 1%positive). set_solver.
Defined.

End Ownership.
